(** * Rock-paper-scissors live: the round controller and the classifier adapter

    A shallow embedding of
      - [src/hooks/useTeachableModel.ts]   (module [TeachableModel]),
      - [src/hooks/useGameLogic.ts]        (module [GameLogic]),
      - [src/components/GameArena.tsx]     (module [GameArena]),
    followed by the properties of the round state machine, of the
    majority vote taken at capture time and of the confidence threshold.

    Conventions of the embedding.
      - A string-literal union is an inductive type, [null] is [None].
      - React state is a record; a setter [setX] is a record update, and a
        functional updater is applied to the latest value, which is what
        React's batching computes for the handlers below.
      - The browser's interval table is a finite map from timer ids to the
        [count] variable captured by the callback of [startRound].
      - Outside inputs (the webcam frames as seen by the classifier and
        [Math.random]) are oracles indexed by the number of calls made so
        far.
      - JavaScript numbers that only count (score, round number, votes) are
        natural numbers; probabilities are the rationals the floats denote. *)

From Stdlib Require Import QArith ZArith List Lia.
From stdpp Require Import base decidable option list strings gmap.
Import ListNotations.

(* ===================================================================== *)
(** ** src/hooks/useTeachableModel.ts *)
(* ===================================================================== *)

Module TeachableModel.

(** [export type GameChoice = "idle" | "rock" | "paper" | "scisors"] *)
Inductive GameChoice : Set := idle | rock | paper | scisors.

#[global] Instance GameChoice_eq_dec : EqDecision GameChoice.
Proof. solve_decision. Defined.

(** The string a member of [GameChoice] is at run time. *)
Definition literal (c : GameChoice) : string :=
  match c with
  | idle => "idle"
  | rock => "rock"
  | paper => "paper"
  | scisors => "scisors"
  end.

(** [export type Prediction = { className: string; probability: number }].
    A [probability] is never [NaN]: [predict] stores
    [probabilities[i] || 0]. *)
Record Prediction : Set := { className : string; probability : Q }.

(** Completion of a JavaScript computation: it returns a value or throws
    (for an [async] function: the promise is fulfilled or rejected). *)
Inductive completion (A : Type) : Type :=
| Normal (a : A)
| Throw.
Arguments Normal {A} a.
Arguments Throw {A}.

(** Sequencing: a throw skips the rest.  [x ← c; k] is [c ≫= (λ x, k)]. *)
#[global] Instance completion_bind : MBind completion :=
  fun A B k c =>
    match c with
    | Normal a => k a
    | Throw => Throw
    end.

(** [try { body } catch (err) { handler }] *)
Definition try_catch {A : Type} (body handler : completion A) : completion A :=
  match body with
  | Normal a => Normal a
  | Throw => handler
  end.

(** [a > b] and [a < b] on numbers that are not [NaN]. *)
Definition Qgtb (a b : Q) : bool := negb (Qle_bool a b).
Definition Qltb (a b : Q) : bool := negb (Qle_bool b a).

(** [Array.prototype.reduce] without an initial value: a [TypeError] on the
    empty array, otherwise a left fold seeded with the first element. *)
Definition reduce {A : Type} (f : A -> A -> A) (l : list A) : completion A :=
  match l with
  | [] => Throw
  | a :: rest => Normal (fold_left f rest a)
  end.

Section Adapter.

(** [HTMLVideoElement] *)
Variable Video : Type.

(** The loaded model, [modelInstance], seen through the part of [predict]
    that uses it: the tensor pipeline from [tf.browser.fromPixels] to
    [prediction.data()], which yields the probabilities or throws. *)
Definition Model : Type := Video -> completion (list Q).

(** The module-level cache: [let modelInstance: any = null] and
    [let metadataLabels: string[] = []]. *)
Variable modelInstance : option Model.
Variable metadataLabels : list string.

(** [probabilities[i] || 0]: a missing entry and a zero both give [0]. *)
Definition probabilityAt (probabilities : list Q) (i : nat) : Q :=
  nth i probabilities 0%Q.

Definition predict (videoElement : Video) : completion (list Prediction) :=
  match modelInstance with
  | None => Normal []
  | Some model =>
      try_catch
        (probabilities ← model videoElement;
         Normal (imap (fun i label =>
                         {| className := label;
                            probability := probabilityAt probabilities i |})
                      metadataLabels))
        (Normal [])
  end.

(** The literal [0.6].  It denotes the double just below 6/10.  The
    probabilities come from a [Float32Array], and no single-precision value
    is that double or lies between it and 6/10, so on them [p < 0.6] is the
    comparison with the rational 6/10. *)
Definition threshold : Q := 6 # 10.

(** The callback of [reduce]: [a.probability > b.probability ? a : b]. *)
Definition higher (a b : Prediction) : Prediction :=
  if Qgtb (probability a) (probability b) then a else b.

(** The result is declared [Promise<GameChoice>]; [top.className as
    GameChoice] is an assertion the compiler takes on trust, and what is
    returned at run time is the string. *)
Definition getTopPrediction (videoElement : Video) : completion string :=
  predictions ← predict videoElement;
  if (length predictions =? 0)%nat then Normal "idle"
  else
    top ← reduce higher predictions;
    if Qltb (probability top) threshold then Normal "idle"
    else Normal (className top).

End Adapter.

End TeachableModel.

(* ===================================================================== *)
(** ** src/hooks/useGameLogic.ts *)
(* ===================================================================== *)

Module GameLogic.
Import TeachableModel.

(** [export type GameResult = "win" | "lose" | "draw" | null] *)
Inductive Outcome : Set := win | lose | draw.
Definition GameResult : Set := option Outcome.

#[global] Instance Outcome_eq_dec : EqDecision Outcome.
Proof. solve_decision. Defined.

(** [export type GamePhase = "waiting" | "countdown" | "capture" | "result"] *)
Module GamePhase.
Inductive t : Set := waiting | countdown | capture | result.
End GamePhase.

#[global] Instance GamePhase_eq_dec : EqDecision GamePhase.t.
Proof. solve_decision. Defined.

Definition CHOICES : list GameChoice := [rock; paper; scisors].

(** [CHOICES[Math.floor(Math.random() * CHOICES.length)]].  The argument is
    the index [Math.floor(Math.random() * CHOICES.length)]; as
    [Math.random()] lies in [0, 1) the index is 0, 1 or 2 and the default
    of [nth] is never used. *)
Definition getComputerChoice (index : nat) : GameChoice :=
  nth index CHOICES idle.

Definition getResult (player computer : GameChoice) : GameResult :=
  if bool_decide (player = idle) then Some lose
  else if bool_decide (player = computer) then Some draw
  else if (bool_decide (player = rock) && bool_decide (computer = scisors))
          || (bool_decide (player = paper) && bool_decide (computer = rock))
          || (bool_decide (player = scisors) && bool_decide (computer = paper))
  then Some win
  else Some lose.

Record Score : Set := { player : nat; computer : nat }.

(** The state of one [useGameLogic] instance: the seven [useState] cells,
    the [timerRef] ref, and the part of the browser it talks to, namely the
    active intervals (timer id to the captured [count]) and the next id
    [setInterval] hands out. *)
Record Hook : Type := {
  phase : GamePhase.t;
  countdown : Z;
  playerChoice : GameChoice;
  computerChoice : GameChoice;
  result : GameResult;
  score : Score;
  roundNumber : nat;
  timerRef : option positive;
  intervals : gmap positive Z;
  nextTimer : positive
}.

(** The first render: the initial values given to [useState] and [useRef]. *)
Definition initial : Hook :=
  {| phase := GamePhase.waiting; countdown := 3;
     playerChoice := idle; computerChoice := idle;
     result := None; score := {| player := 0; computer := 0 |};
     roundNumber := 0; timerRef := None;
     intervals := ∅; nextTimer := 1%positive |}.

Definition setPhase (p : GamePhase.t) (h : Hook) : Hook :=
  {| phase := p; countdown := countdown h;
     playerChoice := playerChoice h; computerChoice := computerChoice h;
     result := result h; score := score h; roundNumber := roundNumber h;
     timerRef := timerRef h; intervals := intervals h;
     nextTimer := nextTimer h |}.

Definition setCountdown (c : Z) (h : Hook) : Hook :=
  {| phase := phase h; countdown := c;
     playerChoice := playerChoice h; computerChoice := computerChoice h;
     result := result h; score := score h; roundNumber := roundNumber h;
     timerRef := timerRef h; intervals := intervals h;
     nextTimer := nextTimer h |}.

Definition setPlayerChoice (c : GameChoice) (h : Hook) : Hook :=
  {| phase := phase h; countdown := countdown h;
     playerChoice := c; computerChoice := computerChoice h;
     result := result h; score := score h; roundNumber := roundNumber h;
     timerRef := timerRef h; intervals := intervals h;
     nextTimer := nextTimer h |}.

Definition setComputerChoice (c : GameChoice) (h : Hook) : Hook :=
  {| phase := phase h; countdown := countdown h;
     playerChoice := playerChoice h; computerChoice := c;
     result := result h; score := score h; roundNumber := roundNumber h;
     timerRef := timerRef h; intervals := intervals h;
     nextTimer := nextTimer h |}.

Definition setResult (r : GameResult) (h : Hook) : Hook :=
  {| phase := phase h; countdown := countdown h;
     playerChoice := playerChoice h; computerChoice := computerChoice h;
     result := r; score := score h; roundNumber := roundNumber h;
     timerRef := timerRef h; intervals := intervals h;
     nextTimer := nextTimer h |}.

(** [setScore] and [setRoundNumber] take an updater, as in
    [setScore((s) => ...)]; a plain value is the constant updater. *)
Definition setScore (f : Score -> Score) (h : Hook) : Hook :=
  {| phase := phase h; countdown := countdown h;
     playerChoice := playerChoice h; computerChoice := computerChoice h;
     result := result h; score := f (score h); roundNumber := roundNumber h;
     timerRef := timerRef h; intervals := intervals h;
     nextTimer := nextTimer h |}.

Definition setRoundNumber (f : nat -> nat) (h : Hook) : Hook :=
  {| phase := phase h; countdown := countdown h;
     playerChoice := playerChoice h; computerChoice := computerChoice h;
     result := result h; score := score h; roundNumber := f (roundNumber h);
     timerRef := timerRef h; intervals := intervals h;
     nextTimer := nextTimer h |}.

(** [setInterval(callback, 1000)] for a callback that has captured a
    variable [count]: a fresh id is handed out and the interval is recorded
    with its [count]. *)
Definition setInterval (count : Z) (h : Hook) : positive * Hook :=
  (nextTimer h,
   {| phase := phase h; countdown := countdown h;
      playerChoice := playerChoice h; computerChoice := computerChoice h;
      result := result h; score := score h; roundNumber := roundNumber h;
      timerRef := timerRef h;
      intervals := <[nextTimer h := count]> (intervals h);
      nextTimer := Pos.succ (nextTimer h) |}).

(** [timerRef.current = t] *)
Definition setTimerRef (t : option positive) (h : Hook) : Hook :=
  {| phase := phase h; countdown := countdown h;
     playerChoice := playerChoice h; computerChoice := computerChoice h;
     result := result h; score := score h; roundNumber := roundNumber h;
     timerRef := t; intervals := intervals h; nextTimer := nextTimer h |}.

(** The write [count--] to the variable captured by interval [id]. *)
Definition setCount (id : positive) (count : Z) (h : Hook) : Hook :=
  {| phase := phase h; countdown := countdown h;
     playerChoice := playerChoice h; computerChoice := computerChoice h;
     result := result h; score := score h; roundNumber := roundNumber h;
     timerRef := timerRef h;
     intervals := <[id := count]> (intervals h);
     nextTimer := nextTimer h |}.

Definition clearInterval (id : positive) (h : Hook) : Hook :=
  {| phase := phase h; countdown := countdown h;
     playerChoice := playerChoice h; computerChoice := computerChoice h;
     result := result h; score := score h; roundNumber := roundNumber h;
     timerRef := timerRef h;
     intervals := delete id (intervals h);
     nextTimer := nextTimer h |}.

(** [startRound(onCapture)] up to the installation of the interval.  The
    callback [onCapture] is not run here; [tick] reports when it is. *)
Definition startRound (h : Hook) : Hook :=
  let h := setPhase GamePhase.countdown h in
  let h := setResult None h in
  let h := setPlayerChoice idle h in
  let h := setComputerChoice idle h in
  let count := 3%Z in
  let h := setCountdown count h in
  let (id, h) := setInterval count h in
  setTimerRef (Some id) h.

(** One firing of the interval callback installed by [startRound], for the
    interval [id].  A cleared interval does not fire.  The boolean tells
    whether [onCapture()] was called, which is the last statement of the
    callback; the caller owns that function and runs it next. *)
Definition tick (id : positive) (h : Hook) : Hook * bool :=
  match intervals h !! id with
  | None => (h, false)
  | Some count =>
      let count := (count - 1)%Z in
      let h := setCount id count h in
      if (0 <? count)%Z then (setCountdown count h, false)
      else
        let h := match timerRef h with
                 | Some current => clearInterval current h
                 | None => h
                 end in
        (setPhase GamePhase.capture h, true)
  end.

(** [resolveRound(playerPick)]; [index] is the draw made by
    [getComputerChoice()]. *)
Definition resolveRound (index : nat) (playerPick : GameChoice) (h : Hook) : Hook :=
  let compPick := getComputerChoice index in
  let roundResult := getResult playerPick compPick in
  let h := setPlayerChoice playerPick h in
  let h := setComputerChoice compPick h in
  let h := setResult roundResult h in
  let h := setPhase GamePhase.result h in
  let h := setRoundNumber (fun r => r + 1) h in
  if bool_decide (roundResult = Some win) then
    setScore (fun s => {| player := player s + 1; computer := computer s |}) h
  else if bool_decide (roundResult = Some lose) then
    setScore (fun s => {| player := player s; computer := computer s + 1 |}) h
  else h.

Definition resetGame (h : Hook) : Hook :=
  let h := setPhase GamePhase.waiting h in
  let h := setCountdown 3 h in
  let h := setPlayerChoice idle h in
  let h := setComputerChoice idle h in
  let h := setResult None h in
  let h := setScore (fun _ => {| player := 0; computer := 0 |}) h in
  setRoundNumber (fun _ => 0) h.

End GameLogic.

(* ===================================================================== *)
(** ** src/components/GameArena.tsx *)
(* ===================================================================== *)

Module GameArena.
Import TeachableModel GameLogic.

(** [const counts: Record<string, number> = {}]: an object whose own keys
    are the labels met so far.  None of the four labels is an array index,
    so [Object.entries] lists the keys in the order of their creation: the
    object is an association list that grows at its end and is updated in
    place. *)
Definition Counts : Set := list (GameChoice * nat).

(** [counts[key]]; [None] is [undefined]. *)
Fixpoint get (counts : Counts) (key : GameChoice) : option nat :=
  match counts with
  | [] => None
  | (k, v) :: rest => if bool_decide (k = key) then Some v else get rest key
  end.

(** [counts[key] = value] *)
Fixpoint put (counts : Counts) (key : GameChoice) (value : nat) : Counts :=
  match counts with
  | [] => [(key, value)]
  | (k, v) :: rest =>
      if bool_decide (k = key) then (k, value) :: rest
      else (k, v) :: put rest key value
  end.

(** [v || 0] on a count *)
Definition orZero (v : option nat) : nat :=
  match v with
  | Some n => n
  | None => 0
  end.

(** The body of [for (const r of readings)]:
    [counts[r] = (counts[r] || 0) + 1]. *)
Definition countReading (counts : Counts) (r : GameChoice) : Counts :=
  put counts r (orZero (get counts r) + 1).

(** The body of [for (const [choice, count] of Object.entries(counts))],
    on the pair of the variables [best] and [bestCount]. *)
Definition keepBest (acc : GameChoice * nat) (entry : GameChoice * nat)
  : GameChoice * nat :=
  let (best, bestCount) := acc in
  let (choice, count) := entry in
  if negb (bool_decide (choice = idle)) && (bestCount <? count)
  then (choice, count)
  else (best, bestCount).

(** Lines 84 to 99 of [handleCapture]: from the readings to the value of
    [best] that is passed to [resolveRound]. *)
Definition mostCommon (readings : list GameChoice) : GameChoice :=
  let counts := fold_left countReading readings [] in
  let (best, bestCount) := fold_left keepBest counts (idle, 0) in
  if bestCount <? 2 then idle else best.

Section Arena.

(** [HTMLVideoElement] *)
Variable Video : Type.

(** [getTopPrediction] of [useTeachableModel] as this component uses it,
    at its declared type [Promise<GameChoice>]: the label it yields for the
    video element on its k-th call.  It never rejects, so every [await] of
    it gives a label. *)
Variable getTopPrediction : Video -> nat -> GameChoice.

(** The k-th value of [Math.floor(Math.random() * CHOICES.length)]. *)
Variable random : nat -> nat.

(** The component and what it observes: the hook state, the video element
    behind [webcamRef.current?.getVideo()], and counters for the calls to
    the classifier, the random draws and the milliseconds spent in
    [setTimeout] waits. *)
Record World : Type := {
  hook : Hook;
  webcam : option Video;
  calls : nat;
  draws : nat;
  waited : nat
}.

Definition initialWorld (v : option Video) : World :=
  {| hook := initial; webcam := v; calls := 0; draws := 0; waited := 0 |}.

Definition withHook (f : Hook -> Hook) (w : World) : World :=
  {| hook := f (hook w); webcam := webcam w; calls := calls w;
     draws := draws w; waited := waited w |}.

(** [const choice = await getTopPrediction(video)] *)
Definition classify (video : Video) (w : World) : GameChoice * World :=
  (getTopPrediction video (calls w),
   {| hook := hook w; webcam := webcam w; calls := S (calls w);
      draws := draws w; waited := waited w |}).

(** [await new Promise((r) => setTimeout(r, ms))] *)
Definition sleep (ms : nat) (w : World) : World :=
  {| hook := hook w; webcam := webcam w; calls := calls w;
     draws := draws w; waited := waited w + ms |}.

(** [resolveRound(best)], with the draw of [getComputerChoice] taken from
    the random source. *)
Definition callResolveRound (best : GameChoice) (w : World) : World :=
  {| hook := resolveRound (random (draws w)) best (hook w);
     webcam := webcam w; calls := calls w;
     draws := S (draws w); waited := waited w |}.

(** [for (let i = 0; i < 5; i++) { ... readings.push(choice); ... }] with
    [n] iterations left. *)
Fixpoint takeReadings (video : Video) (n : nat) (readings : list GameChoice)
  (w : World) : list GameChoice * World :=
  match n with
  | O => (readings, w)
  | S n' =>
      let (choice, w) := classify video w in
      let readings := readings ++ [choice] in
      let w := sleep 100 w in
      takeReadings video n' readings w
  end.

(** [handleCapture], run to completion.  Its awaits are suspension
    points; the steps between them are composed here, and the actions of
    [reachable] below are those that happen outside a capture: while the
    phase is [capture] neither button is rendered. *)
Definition handleCapture (w : World) : World :=
  match webcam w with
  | None => callResolveRound idle w
  | Some video =>
      let (readings, w) := takeReadings video 5 [] w in
      callResolveRound (mostCommon readings) w
  end.

(** [handlePlay]: [startRound(handleCapture)]. *)
Definition handlePlay (w : World) : World := withHook startRound w.

(** The interval [id] fires: the callback of [startRound] runs and, when
    the countdown is over, calls [onCapture], which is [handleCapture]. *)
Definition fire (id : positive) (w : World) : World :=
  let (h, captured) := tick id (hook w) in
  let w := withHook (fun _ => h) w in
  if captured then handleCapture w else w.

(** What the player and the browser can do to the component. *)
Inductive Action : Type :=
| Play
| Zero
| Fire (id : positive)
| Webcam (v : option Video).

(** The JSX conditions under which each action can happen: the play button
    is rendered when [phase === "waiting" || phase === "result"], the
    button ZERAR when
    [roundNumber > 0 && phase !== "countdown" && phase !== "capture"], and
    only an active interval fires.  The play button depends further on the
    model ([error], [isLoading], [isReady]); leaving that out only makes
    more states count as reachable. *)
Definition offered (a : Action) (w : World) : bool :=
  match a with
  | Play =>
      bool_decide (phase (hook w) = GamePhase.waiting)
      || bool_decide (phase (hook w) = GamePhase.result)
  | Zero =>
      (0 <? roundNumber (hook w))
      && negb (bool_decide (phase (hook w) = GamePhase.countdown))
      && negb (bool_decide (phase (hook w) = GamePhase.capture))
  | Fire id => bool_decide (is_Some (intervals (hook w) !! id))
  | Webcam _ => true
  end.

Definition perform (a : Action) (w : World) : World :=
  match a with
  | Play => handlePlay w
  | Zero => withHook resetGame w
  | Fire id => fire id w
  | Webcam v =>
      {| hook := hook w; webcam := v; calls := calls w;
         draws := draws w; waited := waited w |}
  end.

(** The states the component can be in: from the first render, through
    actions that are offered. *)
Inductive reachable : World -> Prop :=
| reachable_initial (v : option Video) : reachable (initialWorld v)
| reachable_perform (a : Action) (w : World) :
    reachable w -> offered a w = true -> reachable (perform a w).

End Arena.

Arguments hook {Video} w.
Arguments webcam {Video} w.
Arguments calls {Video} w.
Arguments draws {Video} w.
Arguments waited {Video} w.
Arguments initialWorld {Video} v.
Arguments withHook {Video} f w.
Arguments classify {Video} getTopPrediction video w.
Arguments sleep {Video} ms w.
Arguments callResolveRound {Video} random best w.
Arguments takeReadings {Video} getTopPrediction video n readings w.
Arguments handleCapture {Video} getTopPrediction random w.
Arguments handlePlay {Video} w.
Arguments fire {Video} getTopPrediction random id w.
Arguments Play {Video}.
Arguments Zero {Video}.
Arguments Fire {Video} id.
Arguments Webcam {Video} v.
Arguments offered {Video} a w.
Arguments perform {Video} getTopPrediction random a w.
Arguments reachable {Video} getTopPrediction random w.

End GameArena.

(* ===================================================================== *)
(** ** Vocabulary of the properties *)
(* ===================================================================== *)

Import TeachableModel GameLogic GameArena.

(** The beats-relation of the game: rock beats scissors, scissors beats
    paper, paper beats rock. *)
Inductive Beats : GameChoice -> GameChoice -> Prop :=
| rock_beats_scisors : Beats rock scisors
| scisors_beats_paper : Beats scisors paper
| paper_beats_rock : Beats paper rock.

(** The number of votes a label has in a list of readings. *)
Definition votes (c : GameChoice) (readings : list GameChoice) : nat :=
  count_occ GameChoice_eq_dec readings c.

(** The position at which a label is first met in a list of readings, the
    length of the list when it is never met. *)
Fixpoint firstSeen (c : GameChoice) (readings : list GameChoice) : nat :=
  match readings with
  | [] => 0
  | r :: rest => if bool_decide (r = c) then 0 else S (firstSeen c rest)
  end.

(** The calls a component can make into one [useGameLogic] instance, and
    the firings of its interval.  A firing that ends the countdown hands
    over to the component's [onCapture]; the call to [resolveRound] that
    this makes is a call of its own in a history. *)
Inductive Call : Set :=
| CallStartRound
| CallTick (id : positive)
| CallResolveRound (index : nat) (playerPick : GameChoice)
| CallResetGame.

Definition call (c : Call) (h : Hook) : Hook :=
  match c with
  | CallStartRound => startRound h
  | CallTick id => fst (tick id h)
  | CallResolveRound index playerPick => resolveRound index playerPick h
  | CallResetGame => resetGame h
  end.

(** A history of calls, oldest first. *)
Definition history (cs : list Call) (h : Hook) : Hook :=
  fold_left (fun h c => call c h) cs h.

Definition isReset (c : Call) : bool :=
  match c with
  | CallResetGame => true
  | _ => false
  end.

(** The outcome a call assigns to a round, for the calls that resolve one. *)
Definition outcomeOf (c : Call) : GameResult :=
  match c with
  | CallResolveRound index playerPick =>
      getResult playerPick (getComputerChoice index)
  | _ => None
  end.

(** How many calls of a history resolved a round with outcome [o]. *)
Definition tallyOf (o : Outcome) (cs : list Call) : nat :=
  length (List.filter (fun c => bool_decide (outcomeOf c = Some o)) cs).

(** How many calls of a history resolved a round. *)
Definition resolutions (cs : list Call) : nat :=
  length (List.filter (fun c => bool_decide (is_Some (outcomeOf c))) cs).

(** A state in the middle of a countdown: the first render, then a click
    on the play button. *)
Definition midCountdown : World unit :=
  handlePlay (initialWorld (Some tt)).

(** In a state the component can reach, an interval is pending only
    during the countdown, and then it is the one [timerRef] points to. *)
Definition timerInv (h : Hook) : Prop :=
  (phase h = GamePhase.countdown
   /\ exists t c, intervals h = {[t := c]} /\ timerRef h = Some t)
  \/ (phase h <> GamePhase.countdown /\ phase h <> GamePhase.capture
      /\ intervals h = ∅).

(* ===================================================================== *)
(** ** src/hooks/useTeachableModel.ts: loading the model *)
(* ===================================================================== *)

Module ModelLoader.

(** What a [throw] carries, as far as the [catch (err)] of [loadModel]
    looks at it: [err instanceof Error ? err.message : ...]. *)
Inductive Thrown : Set :=
| ErrorObject (message : string)
| OtherValue.

(** An awaited step of [loadModel]: fulfilled with a value, or rejected. *)
Inductive attempt (A : Type) : Type :=
| Fulfilled (a : A)
| Rejected (e : Thrown).
Arguments Fulfilled {A} a.
Arguments Rejected {A} e.

Section Loader.

(** [HTMLVideoElement] *)
Variable Video : Type.

(** The archive behind [fetch("/model.zip")] as [loadModel] reads it.
    [metadataFile] is [zip.file("metadata.json")], absent or carrying what
    reading it, [JSON.parse] and [metadata.labels] give: a throw, or the
    labels, absent when [metadata.labels] is falsy.  [modelFile] is
    [zip.file("model.json")], absent or carrying what the steps from reading
    it to [tf.loadLayersModel] give: a throw, or the model. *)
Record Zip : Type := {
  metadataFile : option (attempt (option (list string)));
  modelFile : option (attempt (Model Video))
}.

(** The module-level variables [modelInstance] and [metadataLabels], and
    the three [useState] cells of one [useTeachableModel] instance. *)
Record Loader : Type := {
  modelInstance : option (Model Video);
  metadataLabels : list string;
  isLoading : bool;
  isReady : bool;
  error : option string
}.

(** A fresh page: the initial values of the module variables and of the
    [useState] cells. *)
Definition freshLoader : Loader :=
  {| modelInstance := None; metadataLabels := [];
     isLoading := false; isReady := false; error := None |}.

Definition setModelInstance (m : option (Model Video)) (s : Loader) : Loader :=
  {| modelInstance := m; metadataLabels := metadataLabels s;
     isLoading := isLoading s; isReady := isReady s; error := error s |}.

Definition setMetadataLabels (l : list string) (s : Loader) : Loader :=
  {| modelInstance := modelInstance s; metadataLabels := l;
     isLoading := isLoading s; isReady := isReady s; error := error s |}.

Definition setIsLoading (b : bool) (s : Loader) : Loader :=
  {| modelInstance := modelInstance s; metadataLabels := metadataLabels s;
     isLoading := b; isReady := isReady s; error := error s |}.

Definition setIsReady (b : bool) (s : Loader) : Loader :=
  {| modelInstance := modelInstance s; metadataLabels := metadataLabels s;
     isLoading := isLoading s; isReady := b; error := error s |}.

Definition setError (e : option string) (s : Loader) : Loader :=
  {| modelInstance := modelInstance s; metadataLabels := metadataLabels s;
     isLoading := isLoading s; isReady := isReady s; error := e |}.

(** The [try] block of [loadModel]: the state it leaves and what it threw,
    if it threw. *)
Definition loadModelTry (download : attempt Zip) (s : Loader)
  : Loader * option Thrown :=
  match download with
  | Rejected e => (s, Some e)
  | Fulfilled zip =>
      match metadataFile zip with
      | None => (s, Some (ErrorObject "metadata.json not found in model zip"))
      | Some (Rejected e) => (s, Some e)
      | Some (Fulfilled labels) =>
          let s := setMetadataLabels (default [] labels) s in
          match modelFile zip with
          | None => (s, Some (ErrorObject "model.json not found in model zip"))
          | Some (Rejected e) => (s, Some e)
          | Some (Fulfilled model) =>
              let s := setModelInstance (Some model) s in
              (setIsReady true s, None)
          end
      end
  end.

(** [err instanceof Error ? err.message : "Failed to load model"] *)
Definition errorMessage (e : Thrown) : string :=
  match e with
  | ErrorObject message => message
  | OtherValue => "Failed to load model"
  end.

(** [loadModel], run to completion, for what the download turns out to be. *)
Definition loadModel (download : attempt Zip) (s : Loader) : Loader :=
  match modelInstance s with
  | Some _ => setIsReady true s
  | None =>
      let s := setIsLoading true s in
      let s := setError None s in
      let (s, thrown) := loadModelTry download s in
      let s := match thrown with
               | Some e => setError (Some (errorMessage e)) s
               | None => s
               end in
      setIsLoading false s
  end.

(** A history of calls to [loadModel], oldest first, each with the download
    it met. *)
Definition loadModels (downloads : list (attempt Zip)) (s : Loader) : Loader :=
  fold_left (fun s download => loadModel download s) downloads s.

(** [getTopPrediction] of the hook in a state of the loader: [predict]
    reads the two module variables. *)
Definition topPrediction (s : Loader) (videoElement : Video)
  : completion string :=
  getTopPrediction Video (modelInstance s) (metadataLabels s) videoElement.

End Loader.

Arguments metadataFile {Video} _.
Arguments modelFile {Video} _.
Arguments modelInstance {Video} _.
Arguments metadataLabels {Video} _.
Arguments isLoading {Video} _.
Arguments isReady {Video} _.
Arguments error {Video} _.
Arguments freshLoader {Video}.
Arguments loadModelTry {Video} download s.
Arguments loadModel {Video} download s.
Arguments loadModels {Video} downloads s.
Arguments topPrediction {Video} s videoElement.

End ModelLoader.

(* ===================================================================== *)
(** ** Vocabulary of the further properties *)
(* ===================================================================== *)

(** What the result panel shows fits the phase: nothing before a round is
    resolved, and in the result phase the outcome of the two moves on
    display. *)
Definition displayConsistent (h : Hook) : Prop :=
  match phase h with
  | GamePhase.waiting | GamePhase.countdown =>
      result h = None /\ playerChoice h = idle /\ computerChoice h = idle
  | GamePhase.capture => True
  | GamePhase.result => result h = getResult (playerChoice h) (computerChoice h)
  end.

(** The number on display during a countdown is the count of the one
    pending interval, and it is 3, 2 or 1. *)
Definition countdownInv (h : Hook) : Prop :=
  (phase h = GamePhase.countdown
   /\ (1 <= countdown h <= 3)%Z
   /\ exists t, intervals h = {[t := countdown h]} /\ timerRef h = Some t)
  \/ (phase h <> GamePhase.countdown /\ intervals h = ∅).

(** A resolved round is on display exactly in the result phase, and then
    the computer shows a real move. *)
Definition resolvedInv (h : Hook) : Prop :=
  (phase h <> GamePhase.result
   /\ result h = None /\ playerChoice h = idle /\ computerChoice h = idle)
  \/ (phase h = GamePhase.result
      /\ computerChoice h <> idle
      /\ result h = getResult (playerChoice h) (computerChoice h)).

(** [n] firings in a row of the interval [id]. *)
Definition ticks (id : positive) (n : nat) (h : Hook) : Hook :=
  Nat.iter n (fun h => fst (tick id h)) h.

(* ===================================================================== *)
(** ** The outcome function *)
(* ===================================================================== *)

Lemma getResult_assigns (p c : GameChoice) :
  exists o : Outcome, getResult p c = Some o.
Proof. destruct p, c; vm_compute; eauto. Qed.

(** C3: on non-idle moves [getResult] follows the cyclic beats-relation:
    the player wins when the player's move beats the computer's, loses
    when the computer's move beats the player's, and equal moves draw;
    one of the three cases applies to every pair. *)
Theorem getResult_cyclic (p c : GameChoice) :
  p <> idle -> c <> idle ->
  (Beats p c -> getResult p c = Some win)
  /\ (Beats c p -> getResult p c = Some lose)
  /\ (p = c -> getResult p c = Some draw)
  /\ (Beats p c \/ Beats c p \/ p = c).
Proof.
  intros Hp Hc. repeat split.
  - intros H; destruct H; reflexivity.
  - intros H; destruct H; reflexivity.
  - intros ->. destruct c; try reflexivity. contradiction.
  - destruct p, c; try contradiction;
      first [ left; constructor
            | right; left; constructor
            | right; right; reflexivity ].
Qed.

Lemma getResult_cyclic_witness :
  getResult rock scisors = Some win
  /\ getResult scisors rock = Some lose
  /\ getResult paper paper = Some draw.
Proof.
  split; [| split].
  - apply (getResult_cyclic rock scisors); [discriminate | discriminate | constructor].
  - apply (getResult_cyclic scisors rock); [discriminate | discriminate | constructor].
  - apply (getResult_cyclic paper paper); [discriminate | discriminate | reflexivity].
Defined.

(** C4: when the player's resolved move is idle the outcome is lose, never
    win or draw, whatever the computer's move; a round resolved with idle
    records that loss. *)
Theorem getResult_idle_forfeit (c : GameChoice) :
  getResult idle c = Some lose
  /\ getResult idle c <> Some win
  /\ getResult idle c <> Some draw
  /\ forall (index : nat) (h : Hook),
       result (resolveRound index idle h) = Some lose.
Proof.
  repeat split; try discriminate.
Qed.

(** C10: with both moves idle the outcome is lose, not draw: the test of
    the player's move against idle comes before the test for equal moves. *)
Theorem getResult_idle_idle :
  getResult idle idle = Some lose /\ getResult idle idle <> Some draw.
Proof. split; [reflexivity | discriminate]. Qed.

(* ===================================================================== *)
(** ** The classifier adapter *)
(* ===================================================================== *)

Section AdapterFacts.

Variable Video : Type.
Variable modelInstance : option (Model Video).
Variable metadataLabels : list string.

Lemma Qltb_lt (a b : Q) : Qltb a b = true <-> (a < b)%Q.
Proof.
  unfold Qltb. rewrite negb_true_iff. split.
  - intros H. apply Qnot_le_lt. intros Hle.
    apply Qle_bool_iff in Hle. congruence.
  - intros H. destruct (Qle_bool b a) eqn:E; [| reflexivity].
    apply Qle_bool_iff in E. exfalso. exact (Qlt_not_le _ _ H E).
Qed.

(** The [try]/[catch] of [predict] absorbs every throw of the model. *)
Lemma predict_returns (v : Video) :
  exists ps, predict Video modelInstance metadataLabels v = Normal ps.
Proof.
  unfold predict. destruct modelInstance as [model |]; [| eauto].
  destruct (model v) as [probabilities |]; simpl; eauto.
Qed.

(** [reduce] picks one of the elements it is given. *)
Lemma fold_higher_In (rest : list Prediction) (a : Prediction) :
  In (fold_left higher rest a) (a :: rest).
Proof.
  revert a. induction rest as [| b rest IH]; intros a; simpl.
  - left; reflexivity.
  - destruct (IH (higher a b)) as [H | H].
    + unfold higher in H at 1.
      destruct (Qgtb (probability a) (probability b)); auto.
    + auto.
Qed.

Lemma higher_ge_left (a b : Prediction) :
  (probability a <= probability (higher a b))%Q.
Proof.
  unfold higher, Qgtb. destruct (Qle_bool _ _) eqn:E; simpl.
  - apply Qle_bool_iff, E.
  - apply Qle_refl.
Qed.

Lemma higher_ge_right (a b : Prediction) :
  (probability b <= probability (higher a b))%Q.
Proof.
  unfold higher, Qgtb. destruct (Qle_bool _ _) eqn:E; simpl.
  - apply Qle_refl.
  - apply Qlt_le_weak, Qnot_le_lt. intros Hle.
    apply Qle_bool_iff in Hle. congruence.
Qed.

Lemma fold_higher_ge_seed (rest : list Prediction) (a : Prediction) :
  (probability a <= probability (fold_left higher rest a))%Q.
Proof.
  revert a. induction rest as [| b rest IH]; intros a; simpl.
  - apply Qle_refl.
  - eapply Qle_trans; [apply (higher_ge_left a b) | apply IH].
Qed.

(** What [reduce] picks has the highest probability of all. *)
Lemma fold_higher_max (rest : list Prediction) (a p : Prediction) :
  In p (a :: rest) ->
  (probability p <= probability (fold_left higher rest a))%Q.
Proof.
  revert a. induction rest as [| b rest IH]; intros a Hin.
  - destruct Hin as [<- | []]. apply Qle_refl.
  - destruct Hin as [Hin | [Hin | Hin]]; simpl.
    + subst p. apply (fold_higher_ge_seed (b :: rest) a).
    + subst p. eapply Qle_trans; [apply (higher_ge_right a b) |].
      apply fold_higher_ge_seed.
    + apply IH. right; exact Hin.
Qed.

Lemma getTopPrediction_of_predictions (v : Video) (ps : list Prediction) :
  predict Video modelInstance metadataLabels v = Normal ps ->
  getTopPrediction Video modelInstance metadataLabels v =
  match ps with
  | [] => Normal (literal idle)
  | a :: rest =>
      let top := fold_left higher rest a in
      if Qltb (probability top) threshold then Normal (literal idle)
      else Normal (className top)
  end.
Proof.
  intros H. unfold getTopPrediction. rewrite H. simpl.
  destruct ps; reflexivity.
Qed.

(** C6: [getTopPrediction] never fails, gives idle when the confidence of
    the highest-confidence prediction is below the threshold 0.6 whatever
    the label of that prediction, and gives idle when the model is not
    loaded, when the model throws, and when there are no predictions. *)
Theorem getTopPrediction_degrades_to_idle (v : Video) :
  (exists c, getTopPrediction Video modelInstance metadataLabels v = Normal c)
  /\ (forall ps top,
        predict Video modelInstance metadataLabels v = Normal ps ->
        In top ps ->
        (forall p, In p ps -> (probability p <= probability top)%Q) ->
        (probability top < 6 # 10)%Q ->
        getTopPrediction Video modelInstance metadataLabels v = Normal (literal idle))
  /\ (modelInstance = None ->
        getTopPrediction Video modelInstance metadataLabels v = Normal (literal idle))
  /\ (forall model,
        modelInstance = Some model -> model v = Throw ->
        getTopPrediction Video modelInstance metadataLabels v = Normal (literal idle))
  /\ (predict Video modelInstance metadataLabels v = Normal [] ->
        getTopPrediction Video modelInstance metadataLabels v = Normal (literal idle)).
Proof.
  split; [| split; [| split; [| split]]].
  - destruct (predict_returns v) as [ps Hps].
    rewrite (getTopPrediction_of_predictions v ps Hps).
    destruct ps as [| a rest]; [eauto |].
    simpl. destruct (Qltb _ _); eauto.
  - intros ps top Hps Hin Hmax Hlow.
    rewrite (getTopPrediction_of_predictions v ps Hps).
    destruct ps as [| a rest]; [reflexivity |].
    simpl.
    assert (Hsel : (probability (fold_left higher rest a) < threshold)%Q).
    { eapply Qle_lt_trans; [| exact Hlow].
      apply Hmax, fold_higher_In. }
    apply Qltb_lt in Hsel. rewrite Hsel. reflexivity.
  - intros Hnone. unfold getTopPrediction, predict. rewrite Hnone. reflexivity.
  - intros model Hsome Hthrow.
    unfold getTopPrediction, predict. rewrite Hsome, Hthrow. reflexivity.
  - intros Hps. rewrite (getTopPrediction_of_predictions v [] Hps). reflexivity.
Qed.

End AdapterFacts.

(** A confident prediction is passed on: the adapter does not always give
    idle. *)
Example getTopPrediction_confident :
  getTopPrediction unit
    (Some (fun _ => Normal [1 # 10; 7 # 10; 1 # 10; 1 # 10]%Q))
    ["idle"; "rock"; "paper"; "scisors"] tt = Normal "rock".
Proof. reflexivity. Qed.

Lemma getTopPrediction_degrades_to_idle_witness :
  getTopPrediction unit
    (Some (fun _ => Normal [1 # 10; 5 # 10; 3 # 10; 1 # 10]%Q))
    ["idle"; "rock"; "paper"; "scisors"] tt = Normal (literal idle)
  /\ getTopPrediction unit None ["idle"; "rock"; "paper"; "scisors"] tt = Normal (literal idle)
  /\ getTopPrediction unit (Some (fun _ => Throw))
       ["idle"; "rock"; "paper"; "scisors"] tt = Normal (literal idle).
Proof.
  split; [| split].
  - apply (proj1 (proj2 (getTopPrediction_degrades_to_idle unit
             (Some (fun _ => Normal [1 # 10; 5 # 10; 3 # 10; 1 # 10]%Q))
             ["idle"; "rock"; "paper"; "scisors"] tt))
           [ {| className := "idle"; probability := 1 # 10 |};
             {| className := "rock"; probability := 5 # 10 |};
             {| className := "paper"; probability := 3 # 10 |};
             {| className := "scisors"; probability := 1 # 10 |} ]
           {| className := "rock"; probability := 5 # 10 |}).
    + reflexivity.
    + simpl; auto.
    + intros p [<- | [<- | [<- | [<- | []]]]]; vm_compute; discriminate.
    + reflexivity.
  - apply (proj1 (proj2 (proj2 (getTopPrediction_degrades_to_idle unit
             None ["idle"; "rock"; "paper"; "scisors"] tt)))).
    reflexivity.
  - apply (proj1 (proj2 (proj2 (proj2 (getTopPrediction_degrades_to_idle unit
             (Some (fun _ => Throw)) ["idle"; "rock"; "paper"; "scisors"] tt))))
           (fun _ => Throw)); reflexivity.
Defined.

(* ===================================================================== *)
(** ** Score and round counter *)
(* ===================================================================== *)

(** A round resolution adds one to the round counter and moves the score
    by the outcome of the round. *)
Lemma resolveRound_effect (index : nat) (pick : GameChoice) (h : Hook) :
  let o := getResult pick (getComputerChoice index) in
  let h' := resolveRound index pick h in
  result h' = o
  /\ phase h' = GamePhase.result
  /\ roundNumber h' = roundNumber h + 1
  /\ player (score h') =
     player (score h) + (if bool_decide (o = Some win) then 1 else 0)
  /\ computer (score h') =
     computer (score h) + (if bool_decide (o = Some lose) then 1 else 0).
Proof.
  cbv zeta. unfold resolveRound.
  destruct (getResult_assigns pick (getComputerChoice index)) as [o Ho].
  rewrite Ho. destruct o; simpl; repeat split; lia.
Qed.

Lemma resolveRound_playerChoice (index : nat) (pick : GameChoice) (h : Hook) :
  playerChoice (resolveRound index pick h) = pick
  /\ computerChoice (resolveRound index pick h) = getComputerChoice index.
Proof.
  unfold resolveRound.
  destruct (bool_decide _); [split; reflexivity |].
  destruct (bool_decide _); split; reflexivity.
Qed.

Lemma startRound_keeps_score (h : Hook) :
  score (startRound h) = score h
  /\ roundNumber (startRound h) = roundNumber h.
Proof. split; reflexivity. Qed.

Lemma tick_keeps_score (id : positive) (h : Hook) :
  score (fst (tick id h)) = score h
  /\ roundNumber (fst (tick id h)) = roundNumber h.
Proof.
  unfold tick. destruct (intervals h !! id) as [count |]; [| split; reflexivity].
  destruct (0 <? count - 1)%Z; [split; reflexivity |].
  simpl. destruct (timerRef h); split; reflexivity.
Qed.

(** One call other than a reset. *)
Lemma call_accounting (c : Call) (h : Hook) :
  isReset c = false ->
  roundNumber (call c h) = roundNumber h + resolutions [c]
  /\ player (score (call c h)) = player (score h) + tallyOf win [c]
  /\ computer (score (call c h)) = computer (score h) + tallyOf lose [c].
Proof.
  intros Hc. destruct c as [| id | index pick |]; try discriminate.
  - unfold resolutions, tallyOf; simpl. lia.
  - destruct (tick_keeps_score id h) as [Hs Hr].
    change (call (CallTick id) h) with (fst (tick id h)).
    rewrite Hs, Hr. unfold resolutions, tallyOf; simpl. lia.
  - destruct (resolveRound_effect index pick h) as (_ & _ & Hr & Hp & Hq).
    simpl call. rewrite Hr, Hp, Hq.
    unfold resolutions, tallyOf. simpl.
    destruct (getResult_assigns pick (getComputerChoice index)) as [o Ho].
    rewrite Ho. destruct o; simpl; lia.
Qed.

Lemma tallyOf_cons (o : Outcome) (c : Call) (cs : list Call) :
  tallyOf o (c :: cs) = tallyOf o [c] + tallyOf o cs.
Proof.
  unfold tallyOf. simpl.
  destruct (bool_decide (outcomeOf c = Some o)); reflexivity.
Qed.

Lemma resolutions_cons (c : Call) (cs : list Call) :
  resolutions (c :: cs) = resolutions [c] + resolutions cs.
Proof.
  unfold resolutions. simpl.
  destruct (bool_decide (is_Some (outcomeOf c))); reflexivity.
Qed.

(** A history without a reset: induction on the history. *)
Lemma history_accounting (cs : list Call) (h : Hook) :
  forallb (fun c => negb (isReset c)) cs = true ->
  roundNumber (history cs h) = roundNumber h + resolutions cs
  /\ player (score (history cs h)) = player (score h) + tallyOf win cs
  /\ computer (score (history cs h)) = computer (score h) + tallyOf lose cs.
Proof.
  revert h. induction cs as [| c cs IH]; intros h Hcs.
  - unfold resolutions, tallyOf; simpl. lia.
  - simpl in Hcs. apply andb_prop in Hcs as [Hc Hcs].
    apply negb_true_iff in Hc.
    destruct (call_accounting c h Hc) as (Hr & Hp & Hq).
    destruct (IH (call c h) Hcs) as (Hr' & Hp' & Hq').
    change (history (c :: cs) h) with (history cs (call c h)).
    rewrite Hr', Hp', Hq', Hr, Hp, Hq.
    rewrite (resolutions_cons c cs), (tallyOf_cons win c cs),
      (tallyOf_cons lose c cs). lia.
Qed.

(** C5: in any history of calls without a reset, each round resolution
    adds exactly one to the round counter and moves the score of at most
    one side, the player's by one on a win, the computer's by one on a
    lose, neither on a draw; the round counter has grown by the number of
    resolutions, the score by the wins and the losses among them, and no
    score component has decreased. *)
Theorem resolveRound_accounting (cs : list Call) (h : Hook) :
  forallb (fun c => negb (isReset c)) cs = true ->
  (forall index pick,
     let before := history cs h in
     let after := resolveRound index pick before in
     roundNumber after = roundNumber before + 1
     /\ (exists o, result after = Some o)
     /\ (result after = Some win ->
         player (score after) = player (score before) + 1
         /\ computer (score after) = computer (score before))
     /\ (result after = Some lose ->
         player (score after) = player (score before)
         /\ computer (score after) = computer (score before) + 1)
     /\ (result after = Some draw -> score after = score before))
  /\ roundNumber (history cs h) = roundNumber h + resolutions cs
  /\ player (score (history cs h)) = player (score h) + tallyOf win cs
  /\ computer (score (history cs h)) = computer (score h) + tallyOf lose cs
  /\ player (score h) <= player (score (history cs h))
  /\ computer (score h) <= computer (score (history cs h)).
Proof.
  intros Hcs.
  destruct (history_accounting cs h Hcs) as (Hr & Hp & Hq).
  split; [| repeat split; try assumption; lia].
  intros index pick before after.
  destruct (resolveRound_effect index pick before) as (Ho & _ & Hr' & Hp' & Hq').
  fold after in Ho, Hr', Hp', Hq'.
  split; [exact Hr' |]. split.
  { rewrite Ho. apply getResult_assigns. }
  rewrite <- Ho in Hp', Hq'.
  split; [| split].
  - intros Hw. rewrite Hw in Hp', Hq'. simpl in Hp', Hq'. lia.
  - intros Hl. rewrite Hl in Hp', Hq'. simpl in Hp', Hq'. lia.
  - intros Hd. rewrite Hd in Hp', Hq'. simpl in Hp', Hq'.
    destruct (score after) as [p q], (score before) as [p' q'].
    simpl in *. f_equal; lia.
Qed.

Lemma resolveRound_accounting_witness :
  let cs := [CallStartRound; CallTick 1; CallResolveRound 2 rock;
             CallResolveRound 0 idle; CallResolveRound 1 paper] in
  roundNumber (history cs initial) = 3
  /\ player (score (history cs initial)) = 1
  /\ computer (score (history cs initial)) = 1.
Proof.
  pose proof (resolveRound_accounting
                [CallStartRound; CallTick 1; CallResolveRound 2 rock;
                 CallResolveRound 0 idle; CallResolveRound 1 paper]
                initial eq_refl) as (_ & Hr & Hp & Hq & _).
  cbv zeta. rewrite Hr, Hp, Hq. repeat split.
Defined.

(* ===================================================================== *)
(** ** Reset and the countdown timer *)
(* ===================================================================== *)

Section ArenaFacts.

Variable Video : Type.
Variable getTopPrediction : Video -> nat -> GameChoice.
Variable random : nat -> nat.

(** The burst of [n] readings: the labels of the next [n] calls to the
    classifier, in order, each followed by a wait of 100 ms; the hook is
    not touched. *)
Lemma takeReadings_spec (video : Video) (n : nat) :
  forall (readings : list GameChoice) (w : World Video),
    takeReadings getTopPrediction video n readings w =
    (readings ++ map (getTopPrediction video) (seq (calls w) n),
     {| hook := hook w; webcam := webcam w; calls := calls w + n;
        draws := draws w; waited := waited w + 100 * n |}).
Proof.
  induction n as [| n IH]; intros readings w.
  - simpl. rewrite app_nil_r, !Nat.add_0_r. destruct w; reflexivity.
  - cbn [takeReadings classify]. rewrite IH. unfold sleep.
    cbn [hook webcam calls draws waited map seq].
    rewrite <- app_assoc. cbn [app]. f_equal.
    f_equal; lia.
Qed.

Lemma handleCapture_hook (w : World Video) :
  exists index best,
    hook (handleCapture getTopPrediction random w) =
    resolveRound index best (hook w).
Proof.
  unfold handleCapture. destruct (webcam w) as [video |].
  - rewrite takeReadings_spec. simpl. eauto.
  - simpl. eauto.
Qed.

Lemma timerInv_initial : timerInv initial.
Proof. right. repeat split; discriminate. Qed.

Lemma timerInv_startRound (h : Hook) :
  intervals h = ∅ -> timerInv (startRound h).
Proof.
  intros Hnone. left. split; [reflexivity |].
  exists (nextTimer h), 3%Z. simpl. rewrite Hnone, insert_empty. auto.
Qed.

Lemma timerInv_resolveRound (index : nat) (best : GameChoice) (h : Hook) :
  intervals h = ∅ -> timerInv (resolveRound index best h).
Proof.
  intros Hnone. right.
  destruct (resolveRound_effect index best h) as (_ & Hphase & _).
  rewrite Hphase. repeat split; try discriminate.
  unfold resolveRound.
  destruct (bool_decide _); [exact Hnone |].
  destruct (bool_decide _); exact Hnone.
Qed.

Lemma timerInv_resetGame (h : Hook) :
  intervals h = ∅ -> timerInv (resetGame h).
Proof. intros Hnone. right. repeat split; try discriminate. exact Hnone. Qed.

(** The firing of the one pending interval: the countdown goes on, or it
    ends with the interval cleared and [onCapture] called. *)
Lemma tick_pending (t : positive) (c : Z) (h : Hook) :
  phase h = GamePhase.countdown ->
  intervals h = {[t := c]} -> timerRef h = Some t ->
  (snd (tick t h) = false /\ timerInv (fst (tick t h)))
  \/ (snd (tick t h) = true /\ intervals (fst (tick t h)) = ∅).
Proof.
  intros Hphase Hint Href. unfold tick.
  rewrite Hint, lookup_singleton_eq.
  destruct (0 <? c - 1)%Z.
  - left. split; [reflexivity |]. left. split; [exact Hphase |].
    exists t, (c - 1)%Z. simpl. rewrite Hint, insert_singleton_eq. auto.
  - right. split; [reflexivity |]. simpl. rewrite Href. simpl.
    rewrite Hint, insert_singleton_eq, delete_singleton_eq. reflexivity.
Qed.

Lemma reachable_timerInv (w : World Video) :
  reachable getTopPrediction random w -> timerInv (hook w).
Proof.
  induction 1 as [v | a w Hw IH Hoff].
  - apply timerInv_initial.
  - destruct a as [| | id | v]; simpl in Hoff |- *.
    + (* the play button *)
      apply timerInv_startRound.
      destruct IH as [(Hc & _) | (_ & _ & Hnone)]; [| exact Hnone].
      rewrite Hc in Hoff. discriminate.
    + (* the button ZERAR *)
      apply timerInv_resetGame.
      destruct IH as [(Hc & _) | (_ & _ & Hnone)]; [| exact Hnone].
      rewrite Hc in Hoff. simpl in Hoff.
      rewrite andb_false_r in Hoff. discriminate.
    + (* an interval fires *)
      apply bool_decide_eq_true in Hoff.
      destruct IH as [(Hc & t & c & Hint & Href) | (_ & _ & Hnone)].
      * rewrite Hint in Hoff. apply lookup_singleton_is_Some in Hoff.
        subst id. unfold fire.
        destruct (tick_pending t c (hook w) Hc Hint Href)
          as [(Hflag & Hinv) | (Hflag & Hnone)];
          destruct (tick t (hook w)) as [h captured];
          simpl in Hflag; subst captured; simpl in *.
        -- exact Hinv.
        -- destruct (handleCapture_hook (withHook (fun _ => h) w))
             as (index & best & ->).
           apply timerInv_resolveRound. exact Hnone.
      * rewrite Hnone in Hoff. exfalso.
        exact (lookup_empty_is_Some id Hoff).
    + exact IH.
Qed.

(** C2, as the code has it: from any state [resetGame] sets the phase to
    waiting, the score to (0,0) and the round counter to 0, and it cancels
    no timer: the pending intervals and [timerRef] are as before.  The
    button that calls it is rendered only outside the countdown and the
    capture, and whenever it is offered in a reachable state no interval
    is pending. *)
Theorem resetGame_clears_state_keeps_timer :
  (forall h : Hook,
     phase (resetGame h) = GamePhase.waiting
     /\ score (resetGame h) = {| player := 0; computer := 0 |}
     /\ roundNumber (resetGame h) = 0
     /\ intervals (resetGame h) = intervals h
     /\ timerRef (resetGame h) = timerRef h)
  /\ (forall w : World Video,
        reachable getTopPrediction random w ->
        offered Zero w = true ->
        intervals (hook w) = ∅).
Proof.
  split.
  - intros h. repeat split.
  - intros w Hw Hoff. simpl in Hoff.
    destruct (reachable_timerInv w Hw) as [(Hc & _) | (_ & _ & Hnone)];
      [| exact Hnone].
    rewrite Hc in Hoff. simpl in Hoff.
    rewrite andb_false_r in Hoff. discriminate.
Qed.

(** C7: without a video element [handleCapture] resolves the round at
    once with the player's move idle, which is a loss: the classifier is
    not called and no wait is made; so the firing that ends the countdown
    leads straight to the result phase. *)
Theorem handleCapture_without_video (w : World Video) :
  webcam w = None ->
  (let w' := handleCapture getTopPrediction random w in
   calls w' = calls w
   /\ waited w' = waited w
   /\ playerChoice (hook w') = idle
   /\ result (hook w') = Some lose
   /\ phase (hook w') = GamePhase.result
   /\ roundNumber (hook w') = roundNumber (hook w) + 1
   /\ score (hook w') =
      {| player := player (score (hook w));
         computer := computer (score (hook w)) + 1 |})
  /\ (forall id : positive,
        snd (tick id (hook w)) = true ->
        let w' := fire getTopPrediction random id w in
        calls w' = calls w
        /\ waited w' = waited w
        /\ playerChoice (hook w') = idle
        /\ result (hook w') = Some lose
        /\ phase (hook w') = GamePhase.result).
Proof.
  intros Hnone. split.
  - unfold handleCapture. rewrite Hnone. simpl. repeat split.
  - intros id Hflag. unfold fire.
    destruct (tick id (hook w)) as [h captured]. simpl in Hflag.
    subst captured. unfold handleCapture. simpl. rewrite Hnone.
    simpl. repeat split.
Qed.

End ArenaFacts.

Lemma resetGame_clears_state_keeps_timer_witness :
  let classifier := fun (_ : unit) (_ : nat) => rock in
  let random := fun _ : nat => 2 in
  let w := perform classifier random (Fire 1)
             (perform classifier random (Fire 1)
                (perform classifier random (Fire 1)
                   (perform classifier random Play
                      (initialWorld (Some tt))))) in
  offered Zero w = true /\ intervals (hook w) = ∅.
Proof.
  cbv zeta. split; [vm_compute; reflexivity |].
  apply (proj2 (resetGame_clears_state_keeps_timer unit
                  (fun _ _ => rock) (fun _ => 2))).
  - apply reachable_perform; [| vm_compute; reflexivity].
    apply reachable_perform; [| vm_compute; reflexivity].
    apply reachable_perform; [| vm_compute; reflexivity].
    apply reachable_perform; [| vm_compute; reflexivity].
    apply reachable_initial.
  - vm_compute; reflexivity.
Defined.

(** C2, as the claim states it, fails: a reset in the middle of a
    countdown leaves the interval pending, and its next three firings end
    the countdown and resolve a round in the state that was just reset. *)
Lemma resetGame_leaves_timer_pending :
  let w := withHook resetGame midCountdown in
  phase (hook midCountdown) = GamePhase.countdown
  /\ phase (hook w) = GamePhase.waiting
  /\ intervals (hook w) !! 1%positive = Some 3%Z
  /\ intervals (hook w) <> ∅
  /\ let w' := fire (fun _ _ => rock) (fun _ => 2) 1
                 (fire (fun _ _ => rock) (fun _ => 2) 1
                    (fire (fun _ _ => rock) (fun _ => 2) 1 w)) in
     phase (hook w') = GamePhase.result
     /\ roundNumber (hook w') = 1
     /\ score (hook w') = {| player := 1; computer := 0 |}.
Proof.
  cbv zeta. split; [reflexivity |]. split; [reflexivity |].
  split; [reflexivity |]. split.
  - intros Hempty.
    assert (H : intervals (hook (withHook resetGame midCountdown))
                !! 1%positive = Some 3%Z) by reflexivity.
    rewrite Hempty in H. discriminate H.
  - vm_compute. repeat split.
Qed.

Lemma handleCapture_without_video_witness :
  let w := handlePlay (initialWorld (@None unit)) in
  let w' := handleCapture (fun _ _ => rock) (fun _ => 2) w in
  calls w' = 0 /\ waited w' = 0 /\ playerChoice (hook w') = idle
  /\ result (hook w') = Some lose.
Proof.
  cbv zeta.
  destruct (proj1 (handleCapture_without_video unit
                     (fun _ _ => rock) (fun _ => 2)
                     (handlePlay (initialWorld (@None unit))) eq_refl))
    as (Hc & Hw & Hp & Hr & _).
  rewrite Hc, Hw, Hp, Hr. repeat split.
Defined.

(* ===================================================================== *)
(** ** The counts object *)
(* ===================================================================== *)

Lemma get_put_same (counts : Counts) (k : GameChoice) (v : nat) :
  get (put counts k v) k = Some v.
Proof.
  induction counts as [| [k' v'] rest IH]; simpl.
  - rewrite bool_decide_eq_true_2; reflexivity.
  - case_bool_decide as Hk; simpl.
    + rewrite bool_decide_eq_true_2; [reflexivity | exact Hk].
    + rewrite bool_decide_eq_false_2; [exact IH | exact Hk].
Qed.

Lemma get_put_other (counts : Counts) (k k' : GameChoice) (v : nat) :
  k <> k' -> get (put counts k v) k' = get counts k'.
Proof.
  intros Hne. induction counts as [| [k0 v0] rest IH]; simpl.
  - rewrite bool_decide_eq_false_2; [reflexivity | exact Hne].
  - case_bool_decide as Hk; simpl.
    + subst k0. rewrite !bool_decide_eq_false_2; auto.
    + case_bool_decide; [reflexivity | exact IH].
Qed.

Lemma get_Some_In (counts : Counts) (k : GameChoice) (v : nat) :
  get counts k = Some v -> In (k, v) counts.
Proof.
  induction counts as [| [k' v'] rest IH]; simpl; [discriminate |].
  case_bool_decide as Hk.
  - intros [= <-]. subst k'. left; reflexivity.
  - intros H. right. apply IH, H.
Qed.

Lemma get_None_keys (counts : Counts) (k : GameChoice) :
  get counts k = None <-> ~ In k (map fst counts).
Proof.
  induction counts as [| [k' v'] rest IH]; simpl.
  - split; [intros _ [] | reflexivity].
  - case_bool_decide as Hk.
    + split; [discriminate | intros H; exfalso; apply H; left; exact Hk].
    + rewrite IH. split.
      * intros H [Heq | Hin]; [exact (Hk Heq) | exact (H Hin)].
      * intros H Hin. apply H. right; exact Hin.
Qed.

(** With every key present once, an entry is what [get] returns. *)
Lemma In_get (counts : Counts) (k : GameChoice) (v : nat) :
  List.NoDup (map fst counts) -> In (k, v) counts -> get counts k = Some v.
Proof.
  induction counts as [| [k' v'] rest IH]; simpl; [intros _ [] |].
  intros Hnd [Heq | Hin].
  - injection Heq as -> ->. rewrite bool_decide_eq_true_2; reflexivity.
  - apply List.NoDup_cons_iff in Hnd as [Hfresh Hnd].
    case_bool_decide as Hk.
    + subst k'. exfalso. apply Hfresh.
      apply (in_map fst) in Hin. exact Hin.
    + apply IH; assumption.
Qed.

(** Assigning to a key that exists keeps the keys as they are; assigning
    to a new key appends it. *)
Lemma put_keys_present (counts : Counts) (k : GameChoice) (v : nat) :
  In k (map fst counts) -> map fst (put counts k v) = map fst counts.
Proof.
  induction counts as [| [k' v'] rest IH]; simpl; [intros [] |].
  intros Hin. case_bool_decide as Hk; simpl; [reflexivity |].
  f_equal. apply IH. destruct Hin as [Heq | Hin]; [contradiction | exact Hin].
Qed.

Lemma put_keys_absent (counts : Counts) (k : GameChoice) (v : nat) :
  ~ In k (map fst counts) -> map fst (put counts k v) = map fst counts ++ [k].
Proof.
  induction counts as [| [k' v'] rest IH]; simpl; [reflexivity |].
  intros Hnin. case_bool_decide as Hk; simpl.
  - exfalso. apply Hnin. left; exact Hk.
  - f_equal. apply IH. intros Hin. apply Hnin. right; exact Hin.
Qed.

Lemma NoDup_snoc (l : list GameChoice) (k : GameChoice) :
  List.NoDup l -> ~ In k l -> List.NoDup (l ++ [k]).
Proof.
  induction l as [| x l IH]; simpl; intros Hnd Hnin.
  - constructor; [intros [] | constructor].
  - apply List.NoDup_cons_iff in Hnd as [Hx Hnd].
    constructor.
    + rewrite in_app_iff. intros [Hin | [Heq | []]]; [exact (Hx Hin) |].
      apply Hnin. left. symmetry; exact Heq.
    + apply IH; [exact Hnd |]. intros Hin. apply Hnin. right; exact Hin.
Qed.

(** ** First occurrences and votes *)

Lemma votes_snoc (c r : GameChoice) (rs : list GameChoice) :
  votes c (rs ++ [r]) = votes c rs + (if bool_decide (r = c) then 1 else 0).
Proof.
  unfold votes. rewrite count_occ_app. simpl.
  destruct (GameChoice_eq_dec r c) as [Heq | Hne].
  - rewrite bool_decide_eq_true_2; [reflexivity | exact Heq].
  - rewrite bool_decide_eq_false_2; [reflexivity | exact Hne].
Qed.

Lemma votes_pos_In (c : GameChoice) (rs : list GameChoice) :
  0 < votes c rs <-> In c rs.
Proof. unfold votes. symmetry. apply count_occ_In. Qed.

Lemma firstSeen_In (c : GameChoice) (rs : list GameChoice) :
  In c rs -> firstSeen c rs < length rs.
Proof.
  induction rs as [| r rs IH]; simpl; [intros [] |].
  intros Hin. case_bool_decide as Hr; [lia |].
  destruct Hin as [Heq | Hin]; [contradiction |].
  specialize (IH Hin). lia.
Qed.

Lemma firstSeen_app_In (c : GameChoice) (rs more : list GameChoice) :
  In c rs -> firstSeen c (rs ++ more) = firstSeen c rs.
Proof.
  induction rs as [| r rs IH]; simpl; [intros [] |].
  intros Hin. case_bool_decide as Hr; [reflexivity |].
  destruct Hin as [Heq | Hin]; [contradiction |].
  rewrite (IH Hin). reflexivity.
Qed.

Lemma firstSeen_app_notIn (c : GameChoice) (rs more : list GameChoice) :
  ~ In c rs -> firstSeen c (rs ++ more) = length rs + firstSeen c more.
Proof.
  induction rs as [| r rs IH]; simpl; [reflexivity |].
  intros Hnin. case_bool_decide as Hr.
  - exfalso. apply Hnin. left; exact Hr.
  - rewrite IH; [reflexivity |]. intros Hin. apply Hnin. right; exact Hin.
Qed.

(** What the counting loop builds, by induction on the readings taken from
    their end: every key is present once, a label that was read is mapped
    to its number of votes and no other label is a key, and the keys stand
    in the order in which the labels were first read. *)
Lemma counts_after_loop (readings : list GameChoice) :
  let counts := fold_left countReading readings [] in
  List.NoDup (map fst counts)
  /\ (forall c,
        get counts c =
        if votes c readings =? 0 then None else Some (votes c readings))
  /\ (forall l1 b l2 c,
        map fst counts = l1 ++ b :: l2 -> In c l2 ->
        firstSeen b readings < firstSeen c readings).
Proof.
  cbv zeta. induction readings as [| r rs IH] using rev_ind.
  - simpl. split; [constructor |]. split; [reflexivity |].
    intros [| x l1] b l2 c H; discriminate H.
  - rewrite fold_left_app. simpl.
    set (counts := fold_left countReading rs []) in *.
    destruct IH as (Hnd & Hget & Hord).
    assert (Hkeys : forall k, In k (map fst counts) <-> In k rs).
    { intros k. rewrite <- (votes_pos_In k rs). split.
      - intros Hin. destruct (votes k rs) eqn:E; [| lia].
        exfalso. apply (proj1 (get_None_keys counts k)); [| exact Hin].
        rewrite Hget, E. reflexivity.
      - intros Hpos. destruct (get counts k) eqn:E.
        + apply get_Some_In in E. apply (in_map fst) in E. exact E.
        + rewrite Hget in E.
          destruct (votes k rs =? 0) eqn:Ez; [| discriminate].
          apply Nat.eqb_eq in Ez. lia. }
    assert (Hold : orZero (get counts r) = votes r rs).
    { rewrite Hget. destruct (votes r rs =? 0) eqn:Ez; [| reflexivity].
      apply Nat.eqb_eq in Ez. simpl. lia. }
    unfold countReading. rewrite Hold.
    split; [| split].
    + destruct (in_dec GameChoice_eq_dec r (map fst counts)) as [Hin | Hnin].
      * rewrite put_keys_present; assumption.
      * rewrite put_keys_absent by assumption. apply NoDup_snoc; assumption.
    + intros c. rewrite votes_snoc. case_bool_decide as Hc.
      * subst c. rewrite get_put_same.
        destruct (votes r rs + 1 =? 0) eqn:Ez; [| reflexivity].
        apply Nat.eqb_eq in Ez. lia.
      * rewrite get_put_other by exact Hc. rewrite Nat.add_0_r. apply Hget.
    + intros l1 b l2 c Hsplit Hc.
      destruct (in_dec GameChoice_eq_dec r (map fst counts)) as [Hin | Hnin].
      * rewrite put_keys_present in Hsplit by assumption.
        assert (Hb : In b rs).
        { apply Hkeys. rewrite Hsplit, in_app_iff. right; left; reflexivity. }
        assert (Hc' : In c rs).
        { apply Hkeys. rewrite Hsplit, in_app_iff. right; right; exact Hc. }
        rewrite !firstSeen_app_In by assumption.
        exact (Hord l1 b l2 c Hsplit Hc).
      * rewrite put_keys_absent in Hsplit by assumption.
        destruct l2 as [| x l2 _] using rev_ind; [destruct Hc |].
        change (l1 ++ b :: l2 ++ [x]) with (l1 ++ (b :: l2) ++ [x]) in Hsplit.
        rewrite app_assoc in Hsplit.
        apply app_inj_tail in Hsplit as [Hsplit <-].
        assert (Hb : In b rs).
        { apply Hkeys. rewrite Hsplit, in_app_iff. right; left; reflexivity. }
        rewrite (firstSeen_app_In b) by exact Hb.
        apply in_app_iff in Hc as [Hc | [<- | []]].
        -- assert (Hc' : In c rs).
           { apply Hkeys. rewrite Hsplit, in_app_iff. right; right; exact Hc. }
           rewrite (firstSeen_app_In c) by exact Hc'.
           exact (Hord l1 b l2 c Hsplit Hc).
        -- rewrite firstSeen_app_notIn.
           ++ pose proof (firstSeen_In b rs Hb). lia.
           ++ intros Hin. apply Hnin, Hkeys, Hin.
Qed.

(** The scan over the entries, started with any [best] and [bestCount]:
    [bestCount] never decreases and bounds the count of every non-idle
    entry; if it has grown, [best] is the first non-idle entry carrying the
    final count. *)
Lemma scan_entries (entries : Counts) :
  forall (best0 : GameChoice) (count0 : nat),
    let (best, bestCount) := fold_left keepBest entries (best0, count0) in
    count0 <= bestCount
    /\ (forall c m, In (c, m) entries -> c <> idle -> m <= bestCount)
    /\ ((best, bestCount) = (best0, count0)
        \/ (count0 < bestCount /\ best <> idle
            /\ exists l1 l2,
                 entries = l1 ++ (best, bestCount) :: l2
                 /\ forall c m, In (c, m) l1 -> c <> idle -> m < bestCount)).
Proof.
  induction entries as [| [choice count] rest IH]; intros best0 count0.
  - simpl. split; [lia |]. split; [intros c m [] | left; reflexivity].
  - simpl.
    destruct (negb (bool_decide (choice = idle)) && (count0 <? count))
      eqn:Etest.
    + apply andb_prop in Etest as [Hchoice Hcount].
      apply negb_true_iff, bool_decide_eq_false in Hchoice.
      apply Nat.ltb_lt in Hcount.
      specialize (IH choice count).
      destruct (fold_left keepBest rest (choice, count)) as [best bestCount].
      destruct IH as (Hle & Hbound & Hsel).
      split; [lia |]. split.
      * intros c m [Heq | Hin] Hc.
        -- injection Heq as <- <-. exact Hle.
        -- exact (Hbound c m Hin Hc).
      * right. split; [lia |].
        destruct Hsel as [Heq | (Hlt & Hbest & l1 & l2 & Hsplit & Hbefore)].
        -- injection Heq as -> ->. split; [exact Hchoice |].
           exists [], rest. split; [reflexivity | intros c m []].
        -- split; [exact Hbest |].
           exists ((choice, count) :: l1), l2. split.
           ++ rewrite Hsplit. reflexivity.
           ++ intros c m [Heq | Hin] Hc.
              ** injection Heq as <- <-. exact Hlt.
              ** exact (Hbefore c m Hin Hc).
    + assert (Hskip : choice <> idle -> count <= count0).
      { intros Hchoice. apply andb_false_iff in Etest as [Hidle | Hcount].
        - apply negb_false_iff, bool_decide_eq_true in Hidle. contradiction.
        - apply Nat.ltb_ge in Hcount. exact Hcount. }
      specialize (IH best0 count0).
      destruct (fold_left keepBest rest (best0, count0)) as [best bestCount].
      destruct IH as (Hle & Hbound & Hsel).
      split; [exact Hle |]. split.
      * intros c m [Heq | Hin] Hc.
        -- injection Heq as <- <-. specialize (Hskip Hc). lia.
        -- exact (Hbound c m Hin Hc).
      * destruct Hsel as [Heq | (Hlt & Hbest & l1 & l2 & Hsplit & Hbefore)].
        -- left; exact Heq.
        -- right. split; [exact Hlt |]. split; [exact Hbest |].
           exists ((choice, count) :: l1), l2. split.
           ++ rewrite Hsplit. reflexivity.
           ++ intros c m [Heq | Hin] Hc.
              ** injection Heq as <- <-. specialize (Hskip Hc). lia.
              ** exact (Hbefore c m Hin Hc).
Qed.

(* ===================================================================== *)
(** ** The majority vote *)
(* ===================================================================== *)

Lemma counts_entry (readings : list GameChoice) (c : GameChoice) (m : nat) :
  In (c, m) (fold_left countReading readings []) <->
  m = votes c readings /\ 0 < m.
Proof.
  destruct (counts_after_loop readings) as (Hnd & Hget & _).
  split.
  - intros Hin. apply (In_get _ _ _ Hnd) in Hin. rewrite Hget in Hin.
    destruct (votes c readings =? 0) eqn:Ez; [discriminate |].
    apply Nat.eqb_neq in Ez. injection Hin as <-. lia.
  - intros [-> Hpos]. apply get_Some_In. rewrite Hget.
    destruct (votes c readings =? 0) eqn:Ez; [| reflexivity].
    apply Nat.eqb_eq in Ez. lia.
Qed.

(** The value of [best] after line 99, for any list of readings. *)
Lemma mostCommon_spec (readings : list GameChoice) :
  let best := mostCommon readings in
  ((forall c, c <> idle -> votes c readings < 2) -> best = idle)
  /\ (forall c0, c0 <> idle -> 2 <= votes c0 readings ->
      best <> idle
      /\ 2 <= votes best readings
      /\ forall c, c <> idle ->
           votes c readings <= votes best readings
           /\ (votes c readings = votes best readings ->
               firstSeen best readings <= firstSeen c readings)).
Proof.
  cbv zeta. unfold mostCommon.
  pose proof (counts_entry readings) as Hentry.
  destruct (counts_after_loop readings) as (_ & _ & Hord).
  pose proof (scan_entries (fold_left countReading readings []) idle 0)
    as Hscan.
  destruct (fold_left keepBest (fold_left countReading readings []) (idle, 0))
    as [best bestCount].
  destruct Hscan as (_ & Hbound & Hsel).
  split.
  - intros Hfew. destruct (bestCount <? 2) eqn:Elow; [reflexivity |].
    apply Nat.ltb_ge in Elow.
    destruct Hsel as [Heq | (_ & Hbest & l1 & l2 & Hsplit & _)].
    + injection Heq as -> ->. reflexivity.
    + assert (Hin : In (best, bestCount) (fold_left countReading readings [])).
      { rewrite Hsplit, in_app_iff. right; left; reflexivity. }
      apply Hentry in Hin as [-> _].
      specialize (Hfew best Hbest). lia.
  - intros c0 Hc0 Hvotes0.
    assert (Hin0 : In (c0, votes c0 readings)
                      (fold_left countReading readings [])).
    { apply Hentry. split; [reflexivity | lia]. }
    pose proof (Hbound _ _ Hin0 Hc0) as Hhigh.
    assert (Elow : (bestCount <? 2) = false) by (apply Nat.ltb_ge; lia).
    rewrite Elow.
    destruct Hsel as [Heq | (_ & Hbest & l1 & l2 & Hsplit & Hbefore)].
    { injection Heq as -> ->. lia. }
    assert (Hin : In (best, bestCount) (fold_left countReading readings [])).
    { rewrite Hsplit, in_app_iff. right; left; reflexivity. }
    apply Hentry in Hin as [Hcount _].
    split; [exact Hbest |]. split; [lia |].
    intros c Hc. split.
    + destruct (votes c readings) eqn:E; [lia |].
      rewrite <- E, <- Hcount.
      apply (Hbound c (votes c readings)); [| exact Hc].
      apply Hentry. split; [reflexivity | lia].
    + intros Htie.
      destruct (decide (c = best)) as [-> | Hne]; [lia |].
      assert (Hinc : In (c, bestCount) (fold_left countReading readings [])).
      { apply Hentry. split; [lia | lia]. }
      rewrite Hsplit in Hinc.
      apply in_app_iff in Hinc as [Hinc | [Heq | Hinc]].
      * specialize (Hbefore _ _ Hinc Hc). lia.
      * injection Heq as Heq. congruence.
      * apply Nat.lt_le_incl.
        apply (Hord (map fst l1) best (map fst l2) c).
        -- rewrite Hsplit, map_app. reflexivity.
        -- apply (in_map fst) in Hinc. exact Hinc.
Qed.

(** The votes of the four labels add up to the number of readings. *)
Lemma votes_total (readings : list GameChoice) :
  votes idle readings + votes rock readings
  + votes paper readings + votes scisors readings = length readings.
Proof.
  unfold votes. induction readings as [| r rs IH]; [reflexivity |].
  destruct r; simpl; lia.
Qed.

Section VoteFacts.

Variable Video : Type.
Variable getTopPrediction : Video -> nat -> GameChoice.
Variable random : nat -> nat.

(** With a video element, [handleCapture] makes five calls to the
    classifier and resolves the round with [best] computed from them. *)
Lemma handleCapture_with_video (w : World Video) (video : Video) :
  webcam w = Some video ->
  let readings := map (getTopPrediction video) (seq (calls w) 5) in
  handleCapture getTopPrediction random w =
  callResolveRound random (mostCommon readings)
    {| hook := hook w; webcam := webcam w; calls := calls w + 5;
       draws := draws w; waited := waited w + 500 |}.
Proof.
  intros Hvideo. unfold handleCapture. rewrite Hvideo.
  rewrite takeReadings_spec, Hvideo. reflexivity.
Qed.

(** C1: with a video element, the move [handleCapture] records for the
    player is decided by its five readings: idle if no non-idle label has
    two votes; otherwise a non-idle label with at least two votes whose
    count no other non-idle label exceeds, and among the non-idle labels
    with that count the one read first. *)
Theorem handleCapture_majority (w : World Video) (video : Video) :
  webcam w = Some video ->
  let readings := map (getTopPrediction video) (seq (calls w) 5) in
  let w' := handleCapture getTopPrediction random w in
  let best := playerChoice (hook w') in
  length readings = 5
  /\ calls w' = calls w + 5
  /\ ((forall c, c <> idle -> votes c readings < 2) ->
      best = idle /\ result (hook w') = Some lose)
  /\ (forall c0, c0 <> idle -> 2 <= votes c0 readings ->
      best <> idle
      /\ 2 <= votes best readings
      /\ forall c, c <> idle ->
           votes c readings <= votes best readings
           /\ (votes c readings = votes best readings ->
               firstSeen best readings <= firstSeen c readings)).
Proof.
  intros Hvideo readings w' best.
  assert (Hbest : best = mostCommon readings).
  { unfold best, w'. rewrite (handleCapture_with_video w video Hvideo).
    unfold callResolveRound. cbn [hook].
    apply (proj1 (resolveRound_playerChoice _ _ _)). }
  split; [reflexivity |]. split.
  { unfold w'. rewrite (handleCapture_with_video w video Hvideo). reflexivity. }
  destruct (mostCommon_spec readings) as (Hidle & Hmajor).
  rewrite <- Hbest in Hidle, Hmajor.
  split; [| exact Hmajor].
  intros Hfew. specialize (Hidle Hfew). split; [exact Hidle |].
  unfold w'. rewrite (handleCapture_with_video w video Hvideo).
  fold readings. rewrite <- Hbest, Hidle. reflexivity.
Qed.

End VoteFacts.

Lemma handleCapture_majority_witness :
  let classifier := fun (_ : unit) k => nth k [rock; rock; idle; paper; rock] idle in
  let w' := handleCapture classifier (fun _ => 1) midCountdown in
  playerChoice (hook w') <> idle
  /\ 2 <= votes (playerChoice (hook w')) [rock; rock; idle; paper; rock].
Proof.
  cbv zeta.
  destruct (handleCapture_majority unit
              (fun (_ : unit) k => nth k [rock; rock; idle; paper; rock] idle)
              (fun _ => 1) midCountdown tt eq_refl)
    as (_ & _ & _ & Hmajor).
  destruct (Hmajor rock) as (Hbest & Hvotes & _).
  - discriminate.
  - vm_compute. lia.
  - split; [exact Hbest | exact Hvotes].
Defined.

(** The two examples of the specification. *)
Example mostCommon_three_rocks :
  mostCommon [rock; rock; idle; paper; rock] = rock.
Proof. reflexivity. Qed.

Example mostCommon_no_majority :
  mostCommon [rock; paper; idle; idle; idle] = idle.
Proof. reflexivity. Qed.

(** A tie between two non-idle labels goes to the one read first. *)
Example mostCommon_tie_first_read :
  mostCommon [paper; rock; rock; paper; idle] = paper
  /\ mostCommon [rock; paper; paper; rock; idle] = rock.
Proof. split; reflexivity. Qed.

(** C8: the resolved label is a function of the five readings alone: two
    runs of [handleCapture], in any two states, with any two classifiers
    and random sources, that sample the same sequence of five labels
    record the same move for the player. *)
Theorem handleCapture_deterministic
  (Video1 Video2 : Type)
  (classifier1 : Video1 -> nat -> GameChoice)
  (classifier2 : Video2 -> nat -> GameChoice)
  (random1 random2 : nat -> nat)
  (w1 : World Video1) (w2 : World Video2)
  (video1 : Video1) (video2 : Video2) :
  webcam w1 = Some video1 ->
  webcam w2 = Some video2 ->
  map (classifier1 video1) (seq (calls w1) 5) =
  map (classifier2 video2) (seq (calls w2) 5) ->
  playerChoice (hook (handleCapture classifier1 random1 w1)) =
  playerChoice (hook (handleCapture classifier2 random2 w2)).
Proof.
  intros Hv1 Hv2 Hsame.
  rewrite (handleCapture_with_video _ classifier1 random1 w1 video1 Hv1).
  rewrite (handleCapture_with_video _ classifier2 random2 w2 video2 Hv2).
  cbv zeta. unfold callResolveRound. cbn [hook].
  rewrite (proj1 (resolveRound_playerChoice _ _ _)).
  rewrite (proj1 (resolveRound_playerChoice _ _ _)).
  rewrite Hsame. reflexivity.
Qed.

Lemma handleCapture_deterministic_witness :
  let readings := [paper; rock; rock; paper; idle] in
  let classifier1 := fun (_ : unit) k => nth k readings idle in
  let classifier2 := fun (_ : bool) k => nth (k - 5) readings scisors in
  let w2 := handlePlay
              (fire classifier2 (fun _ => 0) 1
                 (fire classifier2 (fun _ => 0) 1
                    (fire classifier2 (fun _ => 0) 1
                       (handlePlay (initialWorld (Some true)))))) in
  playerChoice (hook (handleCapture classifier1 (fun _ => 2) midCountdown)) =
  playerChoice (hook (handleCapture classifier2 (fun _ => 0) w2)).
Proof.
  cbv zeta.
  apply (handleCapture_deterministic unit bool
           (fun (_ : unit) k => nth k [paper; rock; rock; paper; idle] idle)
           (fun (_ : bool) k => nth (k - 5) [paper; rock; rock; paper; idle] scisors)
           (fun _ => 2) (fun _ => 0) midCountdown _ tt true);
    reflexivity.
Defined.

(* ===================================================================== *)
(** ** Idle votes *)
(* ===================================================================== *)

Lemma votes_without_idle (c : GameChoice) (readings : list GameChoice) :
  c <> idle ->
  votes c (List.filter (fun r => negb (bool_decide (r = idle))) readings) =
  votes c readings.
Proof.
  intros Hc. unfold votes. induction readings as [| r rs IH]; [reflexivity |].
  simpl. case_bool_decide as Hr; simpl.
  - subst r. destruct (GameChoice_eq_dec idle c); [congruence | exact IH].
  - destruct (GameChoice_eq_dec r c); rewrite IH; reflexivity.
Qed.

Lemma firstSeen_without_idle (b c : GameChoice) (readings : list GameChoice) :
  b <> idle -> c <> idle ->
  firstSeen b readings <= firstSeen c readings ->
  firstSeen b (List.filter (fun r => negb (bool_decide (r = idle))) readings)
  <= firstSeen c (List.filter (fun r => negb (bool_decide (r = idle))) readings).
Proof.
  intros Hb Hc. induction readings as [| r rs IH]; [reflexivity |].
  simpl. destruct (decide (r = idle)) as [-> | Hr].
  - rewrite (bool_decide_eq_true_2 (idle = idle)) by reflexivity. simpl.
    rewrite !bool_decide_eq_false_2 by congruence.
    intros Hle. apply IH. lia.
  - rewrite (bool_decide_eq_false_2 (r = idle)) by exact Hr. simpl.
    case_bool_decide as Hrb; [lia |].
    case_bool_decide as Hrc; [lia |].
    intros Hle. apply le_n_S, IH. lia.
Qed.

Lemma firstSeen_same (b c : GameChoice) (readings : list GameChoice) :
  In b readings -> firstSeen b readings = firstSeen c readings -> b = c.
Proof.
  induction readings as [| r rs IH]; simpl; [intros [] |].
  intros Hin. case_bool_decide as Hrb; case_bool_decide as Hrc; intros Heq.
  - congruence.
  - discriminate.
  - discriminate.
  - destruct Hin as [Hin | Hin]; [contradiction |].
    apply IH; [exact Hin | lia].
Qed.

(** The description of [best] fits one label only. *)
Lemma mostCommon_unique (b : GameChoice) (readings : list GameChoice) :
  b <> idle -> 2 <= votes b readings ->
  (forall c, c <> idle ->
     votes c readings <= votes b readings
     /\ (votes c readings = votes b readings ->
         firstSeen b readings <= firstSeen c readings)) ->
  mostCommon readings = b.
Proof.
  intros Hb Hvotes Hmax.
  destruct (mostCommon_spec readings) as (_ & Hmajor).
  destruct (Hmajor b Hb Hvotes) as (Hbest & Hvotes' & Hmax').
  destruct (Hmax (mostCommon readings) Hbest) as (Hle & Hfirst).
  destruct (Hmax' b Hb) as (Hle' & Hfirst').
  assert (Htie : votes (mostCommon readings) readings = votes b readings) by lia.
  specialize (Hfirst Htie). specialize (Hfirst' (eq_sym Htie)).
  apply (firstSeen_same _ _ readings).
  - apply votes_pos_In. lia.
  - lia.
Qed.

(** Dropping the idle readings does not change the resolved label. *)
Lemma mostCommon_without_idle (readings : list GameChoice) :
  mostCommon (List.filter (fun r => negb (bool_decide (r = idle))) readings) =
  mostCommon readings.
Proof.
  set (kept := List.filter (fun r => negb (bool_decide (r = idle))) readings).
  destruct (mostCommon_spec readings) as (Hidle & Hmajor).
  destruct (le_lt_dec 2 (votes rock readings)) as [Hrock | Hrock];
    [| destruct (le_lt_dec 2 (votes paper readings)) as [Hpaper | Hpaper];
       [| destruct (le_lt_dec 2 (votes scisors readings)) as [Hsc | Hsc]]].
  4: { assert (Hfew : forall c, c <> idle -> votes c readings < 2).
       { intros [] Hc; [contradiction | assumption ..]. }
       rewrite (Hidle Hfew).
       apply (proj1 (mostCommon_spec kept)).
       intros c Hc. unfold kept. rewrite votes_without_idle by exact Hc.
       exact (Hfew c Hc). }
  all: match goal with
       | H : 2 <= votes ?c0 _ |- _ =>
           destruct (Hmajor c0 ltac:(discriminate) H) as (Hbest & Hvotes & Hmax)
       end;
    apply mostCommon_unique;
    [ exact Hbest
    | unfold kept; rewrite votes_without_idle by exact Hbest; exact Hvotes
    | intros c Hc; unfold kept;
      rewrite !votes_without_idle by assumption;
      destruct (Hmax c Hc) as (Hle & Hfirst);
      split; [exact Hle |];
      intros Htie; apply firstSeen_without_idle; auto ].
Qed.

(** C9: idle is never a candidate.  In five readings a non-idle label with
    exactly two votes is the resolved move although idle has the other
    three, so the round is not a forfeit by the vote; and in general the
    resolved move is the same with the idle readings left out. *)
Theorem two_votes_beat_idle_majority
  (readings : list GameChoice) (c : GameChoice) :
  length readings = 5 ->
  c <> idle ->
  votes c readings = 2 ->
  votes idle readings = 3 ->
  mostCommon readings = c
  /\ mostCommon readings <> idle
  /\ mostCommon (List.filter (fun r => negb (bool_decide (r = idle))) readings)
     = mostCommon readings.
Proof.
  intros Hlen Hc Htwo Hthree.
  destruct (mostCommon_spec readings) as (_ & Hmajor).
  destruct (Hmajor c Hc ltac:(lia)) as (Hbest & Hvotes & _).
  pose proof (votes_total readings) as Htotal.
  assert (Heq : mostCommon readings = c).
  { destruct (mostCommon readings), c; try contradiction; try reflexivity; lia. }
  split; [exact Heq |]. split; [exact Hbest |].
  apply mostCommon_without_idle.
Qed.

Lemma two_votes_beat_idle_majority_witness :
  mostCommon [idle; idle; idle; rock; rock] = rock.
Proof.
  apply (two_votes_beat_idle_majority [idle; idle; idle; rock; rock] rock).
  - reflexivity.
  - discriminate.
  - reflexivity.
  - reflexivity.
Defined.

(* ===================================================================== *)
(** ** Further properties of the classifier adapter *)
(* ===================================================================== *)

Section AdapterShape.

Variable Video : Type.
Variable metadataLabels : list string.

Lemma imap_className (labels : list string) (f : nat -> string -> Prediction) :
  (forall i label, className (f i label) = label) ->
  map className (imap f labels) = labels.
Proof.
  revert f. induction labels as [| label labels IH]; intros f Hf.
  - reflexivity.
  - simpl. rewrite Hf. f_equal. apply IH. intros i l. apply Hf.
Qed.

(** X1: when the model yields its probabilities, [predict] returns one
    prediction per label of the metadata, in the order of the labels; the
    i-th carries the i-th probability, and 0 when the model gave fewer
    probabilities than there are labels. *)
Theorem predict_one_per_label
  (model : Model Video) (v : Video) (probabilities : list Q) :
  model v = Normal probabilities ->
  exists predictions,
    predict Video (Some model) metadataLabels v = Normal predictions
    /\ map className predictions = metadataLabels
    /\ length predictions = length metadataLabels
    /\ (forall i label,
          metadataLabels !! i = Some label ->
          predictions !! i =
          Some {| className := label;
                  probability := nth i probabilities 0%Q |})
    /\ (forall i p,
          predictions !! i = Some p -> (length probabilities <= i)%nat ->
          probability p = 0%Q).
Proof.
  intros Hmodel. unfold predict. rewrite Hmodel. simpl.
  eexists. split; [reflexivity |]. split; [| split; [| split]].
  - apply imap_className. reflexivity.
  - apply length_imap.
  - intros i label Hi. rewrite list_lookup_imap, Hi. reflexivity.
  - intros i p Hi Hshort. rewrite list_lookup_imap in Hi.
    destruct (metadataLabels !! i) as [label |]; [| discriminate].
    injection Hi as <-. simpl. unfold probabilityAt.
    apply nth_overflow. exact Hshort.
Qed.

End AdapterShape.

Lemma predict_one_per_label_witness :
  exists predictions,
    predict unit (Some (fun _ => Normal [7 # 10; 2 # 10]%Q))
      ["idle"; "rock"; "paper"] tt = Normal predictions
    /\ map className predictions = ["idle"; "rock"; "paper"]
    /\ predictions !! 2%nat = Some {| className := "paper"; probability := 0 |}.
Proof.
  destruct (predict_one_per_label unit ["idle"; "rock"; "paper"]
              (fun _ => Normal [7 # 10; 2 # 10]%Q) tt [7 # 10; 2 # 10]%Q
              eq_refl)
    as (predictions & Hp & Hnames & _ & Hat & _).
  exists predictions. split; [exact Hp |]. split; [exact Hnames |].
  apply (Hat 2%nat "paper"). reflexivity.
Defined.

Section AdapterChoice.

Variable Video : Type.
Variable modelInstance : option (Model Video).
Variable metadataLabels : list string.

Lemma Qgtb_false_le (a b : Q) : Qgtb a b = false <-> (a <= b)%Q.
Proof.
  unfold Qgtb. rewrite negb_false_iff. apply Qle_bool_iff.
Qed.

(** Folding over predictions that the seed beats strictly keeps the seed. *)
Lemma fold_higher_keeps (rest : list Prediction) (top : Prediction) :
  (forall p, In p rest -> (probability p < probability top)%Q) ->
  fold_left higher rest top = top.
Proof.
  induction rest as [| b rest IH]; intros Hlow; [reflexivity |].
  simpl. assert (Hb : higher top b = top).
  { unfold higher, Qgtb. destruct (Qle_bool _ _) eqn:E; [| reflexivity].
    apply Qle_bool_iff in E. exfalso.
    apply (Qlt_not_le _ _ (Hlow b (or_introl eq_refl))). exact E. }
  rewrite Hb. apply IH. intros p Hp. apply Hlow. right; exact Hp.
Qed.

(** [reduce] gives the last of the predictions of highest probability. *)
Lemma reduce_higher_last_max (before after : list Prediction) (top : Prediction) :
  (forall p, In p before -> (probability p <= probability top)%Q) ->
  (forall p, In p after -> (probability p < probability top)%Q) ->
  reduce higher (before ++ top :: after) = Normal top.
Proof.
  intros Hbefore Hafter. destruct before as [| a before]; simpl.
  - rewrite fold_higher_keeps; [reflexivity | exact Hafter].
  - rewrite fold_left_app. simpl.
    assert (Hacc : higher (fold_left higher before a) top = top).
    { unfold higher.
      rewrite (proj2 (Qgtb_false_le _ _)); [reflexivity |].
      apply Hbefore. apply fold_higher_In. }
    rewrite Hacc, fold_higher_keeps; [reflexivity | exact Hafter].
Qed.

(** X2: among predictions of equal highest probability the last one wins:
    when the prediction [top] is at least as probable as those before it,
    more probable than those after it, and its probability is not below
    the threshold, [getTopPrediction] returns the label of [top]. *)
Theorem getTopPrediction_last_of_highest
  (v : Video) (before after : list Prediction) (top : Prediction) :
  predict Video modelInstance metadataLabels v =
    Normal (before ++ top :: after) ->
  (forall p, In p before -> (probability p <= probability top)%Q) ->
  (forall p, In p after -> (probability p < probability top)%Q) ->
  (6 # 10 <= probability top)%Q ->
  getTopPrediction Video modelInstance metadataLabels v =
    Normal (className top).
Proof.
  intros Hps Hbefore Hafter Hhigh.
  unfold getTopPrediction. rewrite Hps. simpl.
  rewrite length_app. simpl.
  replace (length before + S (length after) =? 0) with false
    by (symmetry; apply Nat.eqb_neq; lia).
  rewrite (reduce_higher_last_max before after top Hbefore Hafter). simpl.
  destruct (Qltb (probability top) threshold) eqn:E; [| reflexivity].
  apply Qltb_lt in E. exfalso. exact (Qlt_not_le _ _ E Hhigh).
Qed.

(** X3: a label other than idle is returned only on evidence: the model is
    loaded and gave its probabilities, the label is one of the metadata
    and belongs to a prediction of highest probability, and that
    probability is at least the threshold. *)
Theorem getTopPrediction_non_idle (v : Video) (label : string) :
  getTopPrediction Video modelInstance metadataLabels v = Normal label ->
  label <> "idle" ->
  exists model probabilities predictions top,
    modelInstance = Some model
    /\ model v = Normal probabilities
    /\ predict Video modelInstance metadataLabels v = Normal predictions
    /\ In top predictions
    /\ className top = label
    /\ In label metadataLabels
    /\ (6 # 10 <= probability top)%Q
    /\ (forall p, In p predictions ->
          (probability p <= probability top)%Q).
Proof.
  intros Hret Hlabel.
  destruct (predict_returns Video modelInstance metadataLabels v)
    as [predictions Hps].
  rewrite (getTopPrediction_of_predictions Video modelInstance
             metadataLabels v predictions Hps) in Hret.
  destruct predictions as [| a rest].
  { injection Hret as <-. contradiction. }
  simpl in Hret.
  destruct (Qltb (probability (fold_left higher rest a)) threshold) eqn:E.
  { injection Hret as <-. contradiction. }
  injection Hret as Hname.
  unfold predict in Hps.
  destruct modelInstance as [model |]; [| discriminate].
  destruct (model v) as [probabilities |] eqn:Hmodel; [| discriminate].
  simpl in Hps. injection Hps as Hps.
  exists model, probabilities, (a :: rest), (fold_left higher rest a).
  split; [reflexivity |]. split; [exact Hmodel |].
  split.
  { unfold predict. rewrite Hmodel. simpl. rewrite Hps. reflexivity. }
  split; [apply fold_higher_In |]. split; [exact Hname |].
  split.
  { rewrite <- Hname.
    assert (Hnames : map className (a :: rest) = metadataLabels).
    { rewrite <- Hps. apply imap_className. reflexivity. }
    rewrite <- Hnames. apply in_map. apply fold_higher_In. }
  split.
  { apply Qnot_lt_le. intros Hlt. apply Qltb_lt in Hlt.
    unfold threshold in E. congruence. }
  intros p Hp. apply fold_higher_max. exact Hp.
Qed.

End AdapterChoice.

Lemma getTopPrediction_last_of_highest_witness :
  getTopPrediction unit
    (Some (fun _ => Normal [1 # 10; 7 # 10; 7 # 10; 1 # 10]%Q))
    ["idle"; "rock"; "paper"; "scisors"] tt = Normal "paper".
Proof.
  apply (getTopPrediction_last_of_highest unit
           (Some (fun _ => Normal [1 # 10; 7 # 10; 7 # 10; 1 # 10]%Q))
           ["idle"; "rock"; "paper"; "scisors"] tt
           [ {| className := "idle"; probability := 1 # 10 |};
             {| className := "rock"; probability := 7 # 10 |} ]
           [ {| className := "scisors"; probability := 1 # 10 |} ]
           {| className := "paper"; probability := 7 # 10 |}).
  - reflexivity.
  - intros p [<- | [<- | []]]; vm_compute; discriminate.
  - intros p [<- | []]; vm_compute; reflexivity.
  - vm_compute; discriminate.
Defined.

Lemma getTopPrediction_non_idle_witness :
  exists top : Prediction,
    className top = "rock" /\ (6 # 10 <= probability top)%Q.
Proof.
  destruct (getTopPrediction_non_idle unit
              (Some (fun _ => Normal [1 # 10; 7 # 10; 1 # 10; 1 # 10]%Q))
              ["idle"; "rock"; "paper"; "scisors"] tt "rock" eq_refl)
    as (model & probabilities & predictions & top
        & _ & _ & _ & _ & Hname & _ & Hhigh & _).
  - discriminate.
  - exists top. split; [exact Hname | exact Hhigh].
Defined.

(* ===================================================================== *)
(** ** Loading the model *)
(* ===================================================================== *)

Section LoaderFacts.

Variable Video : Type.

(** One call of [loadModel] that finds no cached model: it ends with
    [isLoading] false, and either the model is stored, [isReady] is set and
    there is no error, or no model is stored, [isReady] is as before and an
    error message is set. *)
Lemma loadModel_uncached
  (download : ModelLoader.attempt (ModelLoader.Zip Video))
  (s : ModelLoader.Loader Video) :
  ModelLoader.modelInstance s = None ->
  let s' := ModelLoader.loadModel download s in
  ModelLoader.isLoading s' = false
  /\ ((ModelLoader.isReady s' = true
       /\ is_Some (ModelLoader.modelInstance s')
       /\ ModelLoader.error s' = None)
      \/ (ModelLoader.modelInstance s' = None
          /\ ModelLoader.isReady s' = ModelLoader.isReady s
          /\ is_Some (ModelLoader.error s'))).
Proof.
  intros Hnone. cbv zeta. unfold ModelLoader.loadModel. rewrite Hnone.
  unfold ModelLoader.loadModelTry.
  destruct download as [zip | e]; simpl.
  - destruct (ModelLoader.metadataFile zip) as [[labels | e] |]; simpl.
    + destruct (ModelLoader.modelFile zip) as [[model | e] |]; simpl.
      * split; [reflexivity |]. left. repeat split. eauto.
      * split; [reflexivity |]. right. rewrite Hnone. repeat split. eauto.
      * split; [reflexivity |]. right. rewrite Hnone. repeat split. eauto.
    + split; [reflexivity |]. right. rewrite Hnone. repeat split. eauto.
    + split; [reflexivity |]. right. rewrite Hnone. repeat split. eauto.
  - split; [reflexivity |]. right. rewrite Hnone. repeat split. eauto.
Qed.

Lemma loadModel_cached
  (download : ModelLoader.attempt (ModelLoader.Zip Video))
  (s : ModelLoader.Loader Video) (model : Model Video) :
  ModelLoader.modelInstance s = Some model ->
  let s' := ModelLoader.loadModel download s in
  ModelLoader.modelInstance s' = Some model
  /\ ModelLoader.metadataLabels s' = ModelLoader.metadataLabels s
  /\ ModelLoader.error s' = ModelLoader.error s
  /\ ModelLoader.isLoading s' = ModelLoader.isLoading s
  /\ ModelLoader.isReady s' = true.
Proof.
  intros Hsome. cbv zeta. unfold ModelLoader.loadModel. rewrite Hsome.
  simpl. repeat split. exact Hsome.
Qed.

Lemma loadModels_preserve
  (downloads : list (ModelLoader.attempt (ModelLoader.Zip Video))) :
  forall s : ModelLoader.Loader Video,
    (ModelLoader.isLoading s = false
     /\ (ModelLoader.isReady s = true <-> is_Some (ModelLoader.modelInstance s))
     /\ (is_Some (ModelLoader.error s) -> ModelLoader.modelInstance s = None)) ->
    let s' := ModelLoader.loadModels downloads s in
    ModelLoader.isLoading s' = false
    /\ (ModelLoader.isReady s' = true <-> is_Some (ModelLoader.modelInstance s'))
    /\ (is_Some (ModelLoader.error s') -> ModelLoader.modelInstance s' = None).
Proof.
  induction downloads as [| download downloads IH]; intros s Hinv.
  - exact Hinv.
  - cbv zeta. simpl. apply IH. destruct Hinv as (Hload & Hready & Herr).
    destruct (ModelLoader.modelInstance s) as [model |] eqn:Hm.
    + destruct (loadModel_cached download s model Hm)
        as (Hm' & _ & He' & Hl' & Hr').
      rewrite Hm', He', Hl', Hr'.
      split; [exact Hload |]. split; [split; eauto |].
      intros He. specialize (Herr He). discriminate.
    + destruct (loadModel_uncached download s Hm)
        as (Hl' & [(Hr' & Hm' & He') | (Hm' & Hr' & He')]).
      * split; [exact Hl' |]. split; [split; auto |].
        rewrite He'. intros [x Hx]. discriminate.
      * split; [exact Hl' |]. rewrite Hm', Hr'. split; [| auto].
        rewrite Hready. reflexivity.
Qed.

(** X4: after any history of calls to [loadModel] on a fresh page, no
    load is marked as running, [isReady] holds exactly when a model is
    stored, and an error message is shown only when no model is stored. *)
Theorem loadModels_ready_iff_loaded
  (downloads : list (ModelLoader.attempt (ModelLoader.Zip Video))) :
  let s := ModelLoader.loadModels downloads ModelLoader.freshLoader in
  ModelLoader.isLoading s = false
  /\ (ModelLoader.isReady s = true <-> is_Some (ModelLoader.modelInstance s))
  /\ (is_Some (ModelLoader.error s) ->
      ModelLoader.modelInstance s = None /\ ModelLoader.isReady s = false).
Proof.
  cbv zeta.
  destruct (loadModels_preserve downloads ModelLoader.freshLoader)
    as (Hload & Hready & Herr).
  { simpl. split; [reflexivity |]. split.
    - split; [discriminate | intros [x Hx]; discriminate].
    - intros [x Hx]. discriminate. }
  split; [exact Hload |]. split; [exact Hready |].
  intros He. specialize (Herr He). split; [exact Herr |].
  apply not_true_is_false. intros Er.
  apply Hready in Er. rewrite Herr in Er. destruct Er as [x Hx]. discriminate.
Qed.

(** X5: the model is loaded once: with a model stored, no later call of
    [loadModel], whatever its download would be, changes the model, the
    labels, the error message or the loading flag, and each such call
    sets [isReady]. *)
Theorem loadModels_keep_model
  (downloads : list (ModelLoader.attempt (ModelLoader.Zip Video)))
  (s : ModelLoader.Loader Video) (model : Model Video) :
  ModelLoader.modelInstance s = Some model ->
  let s' := ModelLoader.loadModels downloads s in
  ModelLoader.modelInstance s' = Some model
  /\ ModelLoader.metadataLabels s' = ModelLoader.metadataLabels s
  /\ ModelLoader.error s' = ModelLoader.error s
  /\ ModelLoader.isLoading s' = ModelLoader.isLoading s
  /\ (downloads <> [] -> ModelLoader.isReady s' = true).
Proof.
  revert s. induction downloads as [| download downloads IH]; intros s Hsome.
  - simpl. repeat split; [exact Hsome | contradiction].
  - cbv zeta. simpl.
    destruct (loadModel_cached download s model Hsome)
      as (Hm & Hlabels & He & Hl & Hr).
    destruct (IH _ Hm) as (Hm' & Hlabels' & He' & Hl' & Hr').
    split; [exact Hm' |]. split; [congruence |]. split; [congruence |].
    split; [congruence |]. intros _.
    destruct downloads as [| d ds]; [exact Hr |].
    apply Hr'. discriminate.
Qed.

(** X6: an archive with a readable [metadata.json] but no [model.json]:
    the labels of the metadata are stored although the load fails; no
    model is stored, the error message names the missing file, and the
    adapter goes on answering idle. *)
Theorem loadModel_without_model_json
  (s : ModelLoader.Loader Video) (zip : ModelLoader.Zip Video)
  (labels : option (list string)) :
  ModelLoader.modelInstance s = None ->
  ModelLoader.metadataFile zip = Some (ModelLoader.Fulfilled labels) ->
  ModelLoader.modelFile zip = None ->
  let s' := ModelLoader.loadModel (ModelLoader.Fulfilled zip) s in
  ModelLoader.metadataLabels s' = default [] labels
  /\ ModelLoader.modelInstance s' = None
  /\ ModelLoader.isReady s' = ModelLoader.isReady s
  /\ ModelLoader.isLoading s' = false
  /\ ModelLoader.error s' = Some "model.json not found in model zip"
  /\ forall v : Video, ModelLoader.topPrediction s' v = Normal "idle".
Proof.
  intros Hnone Hmeta Hmodel. cbv zeta.
  unfold ModelLoader.topPrediction, ModelLoader.loadModel.
  rewrite Hnone. unfold ModelLoader.loadModelTry.
  rewrite Hmeta. simpl. rewrite Hmodel. simpl. rewrite Hnone.
  repeat split.
Qed.

(** X7: while [isReady] is false after a history of loads on a fresh
    page, the adapter answers idle for every frame. *)
Theorem not_ready_answers_idle
  (downloads : list (ModelLoader.attempt (ModelLoader.Zip Video)))
  (v : Video) :
  let s := ModelLoader.loadModels downloads ModelLoader.freshLoader in
  ModelLoader.isReady s = false ->
  ModelLoader.topPrediction s v = Normal "idle".
Proof.
  cbv zeta. intros Hnot.
  destruct (loadModels_preserve downloads ModelLoader.freshLoader)
    as (_ & Hready & _).
  { simpl. split; [reflexivity |]. split.
    - split; [discriminate | intros [x Hx]; discriminate].
    - intros [x Hx]. discriminate. }
  unfold ModelLoader.topPrediction.
  destruct (ModelLoader.modelInstance _) as [model |] eqn:Hm.
  - assert (Hr : ModelLoader.isReady
                   (ModelLoader.loadModels downloads ModelLoader.freshLoader)
                 = true) by (apply Hready; eauto).
    congruence.
  - reflexivity.
Qed.

End LoaderFacts.

Lemma loadModels_keep_model_witness :
  let model : Model unit := fun _ => Normal [1 # 10; 9 # 10]%Q in
  let zip := {| ModelLoader.metadataFile :=
                  Some (ModelLoader.Fulfilled (Some ["idle"; "rock"]));
                ModelLoader.modelFile := Some (ModelLoader.Fulfilled model) |} in
  let s := ModelLoader.loadModel (ModelLoader.Fulfilled zip)
             ModelLoader.freshLoader in
  let s' := ModelLoader.loadModels
              [ModelLoader.Rejected ModelLoader.OtherValue] s in
  ModelLoader.modelInstance s' = Some model
  /\ ModelLoader.metadataLabels s' = ["idle"; "rock"].
Proof.
  cbv zeta.
  destruct (loadModels_keep_model unit
              [ModelLoader.Rejected ModelLoader.OtherValue]
              (ModelLoader.loadModel
                 (ModelLoader.Fulfilled
                    {| ModelLoader.metadataFile :=
                         Some (ModelLoader.Fulfilled (Some ["idle"; "rock"]));
                       ModelLoader.modelFile :=
                         Some (ModelLoader.Fulfilled
                                 (fun _ => Normal [1 # 10; 9 # 10]%Q)) |})
                 ModelLoader.freshLoader)
              (fun _ => Normal [1 # 10; 9 # 10]%Q) eq_refl)
    as (Hm & Hlabels & _).
  split; [exact Hm | exact Hlabels].
Defined.

Lemma loadModel_without_model_json_witness :
  let zip : ModelLoader.Zip unit :=
    {| ModelLoader.metadataFile :=
         Some (ModelLoader.Fulfilled (Some ["idle"; "rock"]));
       ModelLoader.modelFile := None |} in
  let s' := ModelLoader.loadModel (ModelLoader.Fulfilled zip)
              ModelLoader.freshLoader in
  ModelLoader.metadataLabels s' = ["idle"; "rock"]
  /\ ModelLoader.modelInstance s' = None.
Proof.
  cbv zeta.
  destruct (loadModel_without_model_json unit ModelLoader.freshLoader
              {| ModelLoader.metadataFile :=
                   Some (ModelLoader.Fulfilled (Some ["idle"; "rock"]));
                 ModelLoader.modelFile := None |}
              (Some ["idle"; "rock"]) eq_refl eq_refl eq_refl)
    as (Hlabels & Hm & _).
  split; [exact Hlabels | exact Hm].
Defined.

Lemma not_ready_answers_idle_witness :
  ModelLoader.topPrediction
    (ModelLoader.loadModels
       [ModelLoader.Rejected (ModelLoader.ErrorObject "Failed to fetch")]
       (@ModelLoader.freshLoader unit))
    tt = Normal "idle".
Proof.
  apply (not_ready_answers_idle unit
           [ModelLoader.Rejected (ModelLoader.ErrorObject "Failed to fetch")]
           tt).
  reflexivity.
Defined.

(* ===================================================================== *)
(** ** Further properties of the game logic *)
(* ===================================================================== *)

(** X8: over all pairs of moves, idle included, the outcome is win exactly
    when the player's move beats the computer's and draw exactly when the
    moves are equal and not idle; every other pair is lose, so any move
    against an idle computer loses; and between non-idle moves one side
    wins exactly when the other loses. *)
Theorem getResult_characterised (p c : GameChoice) :
  (getResult p c = Some win <-> Beats p c)
  /\ (getResult p c = Some draw <-> p = c /\ p <> idle)
  /\ (getResult p c = Some lose <->
      ~ Beats p c /\ ~ (p = c /\ p <> idle))
  /\ getResult p idle = Some lose
  /\ (p <> idle -> c <> idle ->
      (getResult p c = Some win <-> getResult c p = Some lose)).
Proof.
  assert (Hnb : forall a b, Beats a b ->
            (a = rock /\ b = scisors) \/ (a = scisors /\ b = paper)
            \/ (a = paper /\ b = rock)).
  { intros a b H. destruct H; auto. }
  split; [| split; [| split; [| split]]].
  - split.
    + destruct p, c; vm_compute; intros H; try discriminate H; constructor.
    + intros H. destruct H; reflexivity.
  - split.
    + destruct p, c; vm_compute; intros H; try discriminate H;
        (split; [reflexivity | discriminate]).
    + intros [-> Hp]. destruct c; try reflexivity. contradiction.
  - split.
    + intros H. split.
      * intros Hb. destruct Hb; discriminate H.
      * intros [-> Hp]. destruct c; try discriminate H. contradiction.
    + intros [Hb Hd].
      destruct p, c; try reflexivity;
        first [ exfalso; apply Hb; constructor
              | exfalso; apply Hd; split; [reflexivity | discriminate] ].
  - destruct p; reflexivity.
  - intros Hp Hc. destruct p, c; try contradiction; vm_compute;
      split; intros H; first [reflexivity | discriminate H].
Qed.

(** X9: an index that [Math.floor(Math.random() * 3)] can give selects a
    move of [CHOICES], which is never idle; and each of the three real
    moves is selected by exactly one such index. *)
Theorem getComputerChoice_real_move (index : nat) :
  index < 3 ->
  In (getComputerChoice index) CHOICES
  /\ getComputerChoice index <> idle
  /\ forall c, c <> idle ->
       exists i, i < 3 /\ getComputerChoice i = c
                 /\ forall j, j < 3 -> getComputerChoice j = c -> j = i.
Proof.
  intros Hindex.
  assert (Hcases : index = 0 \/ index = 1 \/ index = 2) by lia.
  split; [| split].
  - destruct Hcases as [-> | [-> | ->]]; simpl; auto.
  - destruct Hcases as [-> | [-> | ->]]; discriminate.
  - intros c Hc.
    assert (Hall : forall j, j < 3 -> j = 0 \/ j = 1 \/ j = 2) by (intros; lia).
    destruct c; [contradiction | exists 0 | exists 1 | exists 2];
      (split; [lia |]; split; [reflexivity |];
       intros j Hj Hsel;
       destruct (Hall j Hj) as [-> | [-> | ->]];
       first [reflexivity | discriminate Hsel]).
Qed.

Lemma getComputerChoice_real_move_witness :
  getComputerChoice 2 <> idle.
Proof.
  apply (getComputerChoice_real_move 2). lia.
Defined.

(** A firing of an active interval whose count is above 1: the count and
    the number on display go down by one, and [onCapture] is not called. *)
Lemma tick_counting (id : positive) (count : Z) (h : Hook) :
  intervals h !! id = Some count -> (1 < count)%Z ->
  tick id h = (setCountdown (count - 1) (setCount id (count - 1) h), false).
Proof.
  intros Hid Hcount. unfold tick. rewrite Hid.
  destruct (0 <? count - 1)%Z eqn:E; [reflexivity |].
  apply Z.ltb_ge in E. lia.
Qed.

(** A firing of an active interval whose count is 1 or less: the interval
    in [timerRef] is cleared, the phase is capture, [onCapture] is called. *)
Lemma tick_last (id : positive) (count : Z) (h : Hook) :
  intervals h !! id = Some count -> (count <= 1)%Z ->
  tick id h =
  (setPhase GamePhase.capture
     (match timerRef h with
      | Some current => clearInterval current (setCount id (count - 1) h)
      | None => setCount id (count - 1) h
      end), true).
Proof.
  intros Hid Hcount. unfold tick. rewrite Hid.
  destruct (0 <? count - 1)%Z eqn:E; [| reflexivity].
  apply Z.ltb_lt in E. lia.
Qed.

Lemma tick_inactive (id : positive) (h : Hook) :
  intervals h !! id = None -> tick id h = (h, false).
Proof. intros Hid. unfold tick. rewrite Hid. reflexivity. Qed.

Lemma ticks_succ (id : positive) (n : nat) (h : Hook) :
  ticks id (S n) h = fst (tick id (ticks id n h)).
Proof. reflexivity. Qed.

(** The countdown that [startRound] starts, firing by firing: the flag of
    each of the first three firings and the state it leaves. *)
Lemma startRound_ticks (h : Hook) :
  let id := nextTimer h in
  let h0 := startRound h in
  (snd (tick id h0) = false
   /\ ticks id 1 h0 = setCountdown 2 (setCount id 2 h0))
  /\ (snd (tick id (ticks id 1 h0)) = false
      /\ ticks id 2 h0 = setCountdown 1 (setCount id 1 (ticks id 1 h0)))
  /\ (snd (tick id (ticks id 2 h0)) = true
      /\ ticks id 3 h0 =
         setPhase GamePhase.capture
           (clearInterval id (setCount id 0 (ticks id 2 h0)))
      /\ intervals (ticks id 3 h0) !! id = None).
Proof.
  cbv zeta.
  set (id := nextTimer h). set (h0 := startRound h).
  assert (H0 : intervals h0 !! id = Some 3%Z).
  { unfold h0, startRound. simpl. apply lookup_insert_eq. }
  pose proof (tick_counting id 3 h0 H0 ltac:(lia)) as T1.
  set (h1 := ticks id 1 h0).
  assert (E1 : h1 = setCountdown 2 (setCount id 2 h0)).
  { unfold h1. rewrite ticks_succ. simpl ticks. rewrite T1. reflexivity. }
  assert (H1 : intervals h1 !! id = Some 2%Z).
  { rewrite E1. simpl. apply lookup_insert_eq. }
  pose proof (tick_counting id 2 h1 H1 ltac:(lia)) as T2.
  set (h2 := ticks id 2 h0).
  assert (E2 : h2 = setCountdown 1 (setCount id 1 h1)).
  { unfold h2. rewrite ticks_succ. fold h1. rewrite T2. reflexivity. }
  assert (H2 : intervals h2 !! id = Some 1%Z).
  { rewrite E2. simpl. apply lookup_insert_eq. }
  assert (R2 : timerRef h2 = Some id).
  { rewrite E2, E1. reflexivity. }
  pose proof (tick_last id 1 h2 H2 ltac:(lia)) as T3.
  rewrite R2 in T3.
  set (h3 := ticks id 3 h0).
  assert (E3 : h3 = setPhase GamePhase.capture
                      (clearInterval id (setCount id 0 h2))).
  { unfold h3. rewrite ticks_succ. fold h2. rewrite T3. reflexivity. }
  split; [rewrite T1; split; [reflexivity | exact E1] |].
  split; [rewrite T2; split; [reflexivity | exact E2] |].
  rewrite T3. split; [reflexivity |]. split; [exact E3 |].
  rewrite E3. simpl. apply lookup_delete_eq.
Qed.

(** X10: from any state, [startRound] shows 3 and installs an interval
    whose first firing shows 2, whose second shows 1, and whose third
    clears it, enters the capture phase and calls [onCapture]; that call
    is made once, for later firings of the interval change nothing. *)
Theorem countdown_three_ticks (h : Hook) :
  let id := nextTimer h in
  let h0 := startRound h in
  (phase h0 = GamePhase.countdown /\ countdown h0 = 3%Z)
  /\ (snd (tick id h0) = false
      /\ phase (ticks id 1 h0) = GamePhase.countdown
      /\ countdown (ticks id 1 h0) = 2%Z)
  /\ (snd (tick id (ticks id 1 h0)) = false
      /\ phase (ticks id 2 h0) = GamePhase.countdown
      /\ countdown (ticks id 2 h0) = 1%Z)
  /\ (snd (tick id (ticks id 2 h0)) = true
      /\ phase (ticks id 3 h0) = GamePhase.capture
      /\ intervals (ticks id 3 h0) !! id = None)
  /\ forall n, tick id (ticks id (3 + n) h0) = (ticks id 3 h0, false).
Proof.
  cbv zeta.
  pose proof (startRound_ticks h) as Hticks. cbv zeta in Hticks.
  destruct Hticks as ((F1 & E1) & (F2 & E2) & (F3 & E3 & Hgone)).
  split; [split; reflexivity |].
  split; [split; [exact F1 | rewrite E1; split; reflexivity] |].
  split.
  { split; [exact F2 |]. rewrite E2, E1. split; reflexivity. }
  split.
  { split; [exact F3 |]. split; [rewrite E3; reflexivity | exact Hgone]. }
  assert (Hstay : forall n,
            ticks (nextTimer h) (3 + n) (startRound h)
            = ticks (nextTimer h) 3 (startRound h)).
  { induction n as [| n IH].
    - reflexivity.
    - replace (3 + S n) with (S (3 + n)) by lia.
      rewrite ticks_succ, IH, (tick_inactive _ _ Hgone). reflexivity. }
  intros n. rewrite Hstay. apply tick_inactive. exact Hgone.
Qed.

(** X11: an interval that is not the one in [timerRef] is never cleared by
    its own firings: once its count is 1 or less, every firing leaves it
    active with the count one lower, leaves [timerRef] alone, calls
    [onCapture] again, and what it clears is the interval in [timerRef]. *)
Theorem superseded_interval_keeps_firing
  (id : positive) (count : Z) (h : Hook) (n : nat) :
  intervals h !! id = Some count ->
  (count <= 1)%Z ->
  timerRef h <> Some id ->
  snd (tick id (ticks id n h)) = true
  /\ intervals (ticks id (S n) h) !! id = Some (count - Z.of_nat (S n))%Z
  /\ timerRef (ticks id (S n) h) = timerRef h
  /\ phase (ticks id (S n) h) = GamePhase.capture
  /\ (forall current, timerRef h = Some current ->
      intervals (ticks id (S n) h) !! current = None).
Proof.
  intros Hid Hcount Href.
  assert (Hinv : intervals (ticks id n h) !! id = Some (count - Z.of_nat n)%Z
                 /\ timerRef (ticks id n h) = timerRef h).
  { induction n as [| n IH].
    - simpl. rewrite Z.sub_0_r. auto.
    - destruct IH as (Hc & Hr). rewrite ticks_succ.
      rewrite (tick_last id _ _ Hc ltac:(lia)). simpl.
      rewrite Hr. destruct (timerRef h) as [current |] eqn:Ecur; simpl.
      + split; [| exact Hr].
        rewrite lookup_delete_ne by congruence.
        rewrite lookup_insert_eq. f_equal. lia.
      + split; [| exact Hr]. rewrite lookup_insert_eq. f_equal. lia. }
  destruct Hinv as (Hc & Hr).
  rewrite ticks_succ, (tick_last id _ _ Hc ltac:(lia)). simpl.
  split; [reflexivity |].
  rewrite Hr. destruct (timerRef h) as [current |] eqn:Ecur; simpl.
  - rewrite lookup_delete_ne by congruence. rewrite lookup_insert_eq.
    split; [f_equal; lia |]. split; [exact Hr |]. split; [reflexivity |].
    intros c [= <-]. apply lookup_delete_eq.
  - rewrite lookup_insert_eq.
    split; [f_equal; lia |]. split; [exact Hr |]. split; [reflexivity |].
    intros c Hcur. discriminate Hcur.
Qed.

Lemma superseded_interval_keeps_firing_witness :
  let h := ticks 1 2 (startRound (startRound initial)) in
  snd (tick 1 (ticks 1 4 h)) = true
  /\ intervals (ticks 1 5 h) !! 1%positive = Some (-4)%Z.
Proof.
  cbv zeta.
  destruct (superseded_interval_keeps_firing 1 1
              (ticks 1 2 (startRound (startRound initial))) 4)
    as (Hflag & Hcount & _).
  - vm_compute. reflexivity.
  - lia.
  - vm_compute. discriminate.
  - split; [exact Hflag | exact Hcount].
Defined.

Lemma call_display_consistent (c : Call) (h : Hook) :
  displayConsistent h -> displayConsistent (call c h).
Proof.
  intros Hh. destruct c as [| id | index pick |]; simpl.
  - unfold displayConsistent. simpl. auto.
  - unfold tick. destruct (intervals h !! id) as [count |]; [| exact Hh].
    destruct (0 <? count - 1)%Z; simpl.
    + exact Hh.
    + unfold displayConsistent. destruct (timerRef h); simpl; exact I.
  - unfold displayConsistent.
    destruct (resolveRound_effect index pick h) as (Hr & Hp & _).
    destruct (resolveRound_playerChoice index pick h) as (Hpc & Hcc).
    rewrite Hp, Hr, Hpc, Hcc. reflexivity.
  - unfold displayConsistent. simpl. auto.
Qed.

(** X12: whatever calls are made on the hook after its first render, in
    any order, what it shows fits its phase: no result and no moves in the
    phases waiting and countdown, and in the phase result the outcome that
    [getResult] gives for the two moves on display. *)
Theorem history_display_consistent (cs : list Call) :
  displayConsistent (history cs initial).
Proof.
  assert (Hgen : forall h, displayConsistent h ->
                           displayConsistent (history cs h)).
  { induction cs as [| c cs IH]; intros h Hh; [exact Hh |].
    simpl. apply IH. apply call_display_consistent. exact Hh. }
  apply Hgen. unfold displayConsistent. simpl. auto.
Qed.

Lemma call_score_bounded (c : Call) (h : Hook) :
  player (score h) + computer (score h) <= roundNumber h ->
  player (score (call c h)) + computer (score (call c h))
  <= roundNumber (call c h).
Proof.
  intros Hh. destruct c as [| id | index pick |].
  - simpl. exact Hh.
  - change (call (CallTick id) h) with (fst (tick id h)).
    destruct (tick_keeps_score id h) as [-> ->]. exact Hh.
  - change (call (CallResolveRound index pick) h)
      with (resolveRound index pick h).
    destruct (resolveRound_effect index pick h) as (_ & _ & Hr & Hp & Hq).
    rewrite Hr, Hp, Hq.
    destruct (getResult_assigns pick (getComputerChoice index)) as [o Ho].
    rewrite Ho. destruct o; simpl; lia.
  - simpl. lia.
Qed.

(** X13: whatever calls are made on the hook after its first render,
    resets included, the two scores together never exceed the round
    counter. *)
Theorem history_score_bounded (cs : list Call) :
  player (score (history cs initial)) + computer (score (history cs initial))
  <= roundNumber (history cs initial).
Proof.
  assert (Hgen : forall h,
            player (score h) + computer (score h) <= roundNumber h ->
            player (score (history cs h)) + computer (score (history cs h))
            <= roundNumber (history cs h)).
  { induction cs as [| c cs IH]; intros h Hh; [exact Hh |].
    simpl. apply IH. apply call_score_bounded. exact Hh. }
  apply Hgen. simpl. lia.
Qed.

(* ===================================================================== *)
(** ** Further properties of the arena *)
(* ===================================================================== *)

Lemma resolveRound_intervals (index : nat) (pick : GameChoice) (h : Hook) :
  intervals (resolveRound index pick h) = intervals h
  /\ timerRef (resolveRound index pick h) = timerRef h
  /\ countdown (resolveRound index pick h) = countdown h.
Proof.
  unfold resolveRound.
  destruct (bool_decide _); [repeat split |].
  destruct (bool_decide _); repeat split.
Qed.

Lemma ticks_keep_score (id : positive) (n : nat) (h : Hook) :
  score (ticks id n h) = score h
  /\ roundNumber (ticks id n h) = roundNumber h.
Proof.
  induction n as [| n IH]; [split; reflexivity |].
  rewrite ticks_succ.
  destruct (tick_keeps_score id (ticks id n h)) as [-> ->]. exact IH.
Qed.

Section ArenaMore.

Variable Video : Type.
Variable getTopPrediction : Video -> nat -> GameChoice.
Variable random : nat -> nat.

(** [handleCapture] in one equation: the move it resolves with and the
    samples it takes, by whether there is a video element. *)
Lemma handleCapture_spec (w : World Video) :
  handleCapture getTopPrediction random w =
  {| hook :=
       resolveRound (random (draws w))
         (match webcam w with
          | None => idle
          | Some video =>
              mostCommon (map (getTopPrediction video) (seq (calls w) 5))
          end) (hook w);
     webcam := webcam w;
     calls := calls w + (match webcam w with None => 0 | Some _ => 5 end);
     draws := S (draws w);
     waited :=
       waited w + 100 * (match webcam w with None => 0 | Some _ => 5 end) |}.
Proof.
  destruct (webcam w) as [video |] eqn:Hw.
  - rewrite (handleCapture_with_video Video getTopPrediction random w video Hw).
    cbv zeta. unfold callResolveRound. cbn [hook webcam calls draws waited].
    rewrite Hw. reflexivity.
  - unfold handleCapture. rewrite Hw. unfold callResolveRound.
    rewrite Hw, !Nat.add_0_r. reflexivity.
Qed.

Lemma fire_not_captured (id : positive) (w : World Video) :
  snd (tick id (hook w)) = false ->
  fire getTopPrediction random id w =
  withHook (fun h => fst (tick id h)) w.
Proof.
  intros Hflag. unfold fire, withHook.
  destruct (tick id (hook w)) as [h captured].
  simpl in Hflag. subst captured. reflexivity.
Qed.

Lemma fire_captured (id : positive) (w : World Video) :
  snd (tick id (hook w)) = true ->
  fire getTopPrediction random id w =
  handleCapture getTopPrediction random
    (withHook (fun h => fst (tick id h)) w).
Proof.
  intros Hflag. unfold fire, withHook.
  destruct (tick id (hook w)) as [h captured].
  simpl in Hflag. subst captured. reflexivity.
Qed.

Lemma fire_ticks_not_captured
  (id : positive) (n : nat) (f : Hook -> Hook) (w : World Video) :
  snd (tick id (ticks id n (f (hook w)))) = false ->
  fire getTopPrediction random id (withHook (fun h => ticks id n (f h)) w) =
  withHook (fun h => ticks id (S n) (f h)) w.
Proof.
  intros Hflag.
  rewrite (fire_not_captured id (withHook (fun h => ticks id n (f h)) w) Hflag).
  reflexivity.
Qed.

Lemma fire_ticks_captured
  (id : positive) (n : nat) (f : Hook -> Hook) (w : World Video) :
  snd (tick id (ticks id n (f (hook w)))) = true ->
  fire getTopPrediction random id (withHook (fun h => ticks id n (f h)) w) =
  handleCapture getTopPrediction random
    (withHook (fun h => ticks id (S n) (f h)) w).
Proof.
  intros Hflag.
  rewrite (fire_captured id (withHook (fun h => ticks id n (f h)) w) Hflag).
  reflexivity.
Qed.

(** X14: a whole round.  From any state, a click on the play button and
    three firings of the interval it installs end in the result phase
    with the round counter one higher, one random draw made, the interval
    gone, the computer's move the one drawn, and the player's move idle
    with no sample taken when there is no video element, otherwise the
    most common of five samples taken over 500 ms. *)
Theorem play_three_ticks_resolve (w : World Video) :
  let id := nextTimer (hook w) in
  let w' := fire getTopPrediction random id
              (fire getTopPrediction random id
                 (fire getTopPrediction random id (handlePlay w))) in
  let samples := match webcam w with None => 0 | Some _ => 5 end in
  phase (hook w') = GamePhase.result
  /\ roundNumber (hook w') = roundNumber (hook w) + 1
  /\ draws w' = S (draws w)
  /\ intervals (hook w') !! id = None
  /\ computerChoice (hook w') = getComputerChoice (random (draws w))
  /\ playerChoice (hook w') =
     match webcam w with
     | None => idle
     | Some video =>
         mostCommon (map (getTopPrediction video) (seq (calls w) 5))
     end
  /\ result (hook w') =
     getResult (playerChoice (hook w')) (computerChoice (hook w'))
  /\ calls w' = calls w + samples
  /\ waited w' = waited w + 100 * samples.
Proof.
  cbv zeta.
  pose proof (startRound_ticks (hook w)) as Hticks. cbv zeta in Hticks.
  destruct Hticks as ((F1 & _) & (F2 & _) & (F3 & _ & Hgone)).
  pose proof (ticks_keep_score (nextTimer (hook w)) 3 (startRound (hook w)))
    as (_ & Hkeep).
  remember (nextTimer (hook w)) as id eqn:Eid.
  change (handlePlay w)
    with (withHook (fun h => ticks id 0 (startRound h)) w).
  rewrite (fire_ticks_not_captured id 0 startRound w F1).
  rewrite (fire_ticks_not_captured id 1 startRound w F2).
  rewrite (fire_ticks_captured id 2 startRound w F3).
  rewrite handleCapture_spec.
  cbn [hook webcam calls draws waited withHook].
  remember (ticks id 3 (startRound (hook w))) as h3 eqn:E3.
  remember (match webcam w with
            | None => idle
            | Some video =>
                mostCommon (map (getTopPrediction video) (seq (calls w) 5))
            end) as best eqn:Ebest.
  destruct (resolveRound_effect (random (draws w)) best h3)
    as (Hres & Hphase & Hround & _).
  destruct (resolveRound_playerChoice (random (draws w)) best h3)
    as (Hpc & Hcc).
  destruct (resolveRound_intervals (random (draws w)) best h3) as (Hint & _).
  cbv zeta in Hres, Hphase, Hround.
  split; [exact Hphase |]. split; [rewrite Hround, Hkeep; reflexivity |].
  split; [reflexivity |]. split; [rewrite Hint; exact Hgone |].
  split; [exact Hcc |]. split; [exact Hpc |].
  split; [rewrite Hres, Hpc, Hcc; reflexivity |].
  split; reflexivity.
Qed.

(** The firing of the one pending interval of a countdown, with the
    number on display. *)
Lemma tick_countdown (t : positive) (h : Hook) :
  phase h = GamePhase.countdown ->
  (1 <= countdown h <= 3)%Z ->
  intervals h = {[t := countdown h]} -> timerRef h = Some t ->
  (snd (tick t h) = false /\ countdownInv (fst (tick t h)))
  \/ (snd (tick t h) = true /\ intervals (fst (tick t h)) = ∅).
Proof.
  intros Hphase Hrange Hint Href.
  assert (Hid : intervals h !! t = Some (countdown h)).
  { rewrite Hint. apply lookup_singleton_eq. }
  destruct (Z_lt_le_dec 1 (countdown h)) as [Hmore | Hlast].
  - left. rewrite (tick_counting t _ h Hid Hmore). split; [reflexivity |].
    left. simpl. split; [exact Hphase |]. split; [lia |].
    exists t. rewrite Hint, insert_singleton_eq. auto.
  - right. rewrite (tick_last t _ h Hid Hlast). split; [reflexivity |].
    rewrite Href. simpl.
    rewrite Hint, insert_singleton_eq, delete_singleton_eq. reflexivity.
Qed.

Lemma countdownInv_resolveRound (index : nat) (best : GameChoice) (h : Hook) :
  intervals h = ∅ -> countdownInv (resolveRound index best h).
Proof.
  intros Hnone. right.
  destruct (resolveRound_effect index best h) as (_ & Hp & _).
  rewrite Hp. split; [discriminate |].
  rewrite (proj1 (resolveRound_intervals index best h)). exact Hnone.
Qed.

Lemma reachable_countdownInv (w : World Video) :
  reachable getTopPrediction random w -> countdownInv (hook w).
Proof.
  induction 1 as [v | a w Hw IH Hoff].
  - right. split; [discriminate | reflexivity].
  - destruct a as [| | id | v]; simpl in Hoff |- *.
    + assert (Hnone : intervals (hook w) = ∅).
      { destruct IH as [(Hc & _) | (_ & Hnone)]; [| exact Hnone].
        rewrite Hc in Hoff. discriminate. }
      left. split; [reflexivity |]. split; [simpl; lia |].
      exists (nextTimer (hook w)). simpl. rewrite Hnone, insert_empty. auto.
    + assert (Hnone : intervals (hook w) = ∅).
      { destruct IH as [(Hc & _) | (_ & Hnone)]; [| exact Hnone].
        rewrite Hc in Hoff. simpl in Hoff.
        rewrite andb_false_r in Hoff. discriminate. }
      right. split; [discriminate | exact Hnone].
    + apply bool_decide_eq_true in Hoff.
      destruct IH as [(Hc & Hrange & t & Hint & Href) | (_ & Hnone)].
      * rewrite Hint in Hoff. apply lookup_singleton_is_Some in Hoff.
        subst id.
        destruct (tick_countdown t (hook w) Hc Hrange Hint Href)
          as [(Hflag & Hinv) | (Hflag & Hnone)].
        -- rewrite (fire_not_captured t w Hflag). exact Hinv.
        -- rewrite (fire_captured t w Hflag), handleCapture_spec.
           cbn [hook withHook].
           apply countdownInv_resolveRound. exact Hnone.
      * rewrite Hnone in Hoff. exfalso.
        exact (lookup_empty_is_Some id Hoff).
    + exact IH.
Qed.

(** X15: in every state the component can reach, during the countdown the
    number on display is 3, 2 or 1 and is the count of the one pending
    interval, which is the interval [timerRef] holds; outside the
    countdown no interval is pending. *)
Theorem reachable_countdown_shown (w : World Video) :
  reachable getTopPrediction random w ->
  (phase (hook w) = GamePhase.countdown ->
   (1 <= countdown (hook w) <= 3)%Z
   /\ exists t, intervals (hook w) = {[t := countdown (hook w)]}
                /\ timerRef (hook w) = Some t)
  /\ (phase (hook w) <> GamePhase.countdown -> intervals (hook w) = ∅).
Proof.
  intros Hw.
  destruct (reachable_countdownInv w Hw) as [(Hc & Hrange & Ht) | (Hc & Hnone)].
  - split; [auto | contradiction].
  - split; [contradiction | auto].
Qed.


Lemma getComputerChoice_in_range (index : nat) :
  index < 3 ->
  getComputerChoice index <> idle /\ In (getComputerChoice index) CHOICES.
Proof.
  intros Hindex.
  assert (Hcases : index = 0 \/ index = 1 \/ index = 2) by lia.
  destruct Hcases as [-> | [-> | ->]]; (split; [discriminate | simpl; auto]).
Qed.

(** A firing that does not call [onCapture] changes neither the phase nor
    what the result panel shows. *)
Lemma tick_not_captured_display (id : positive) (h : Hook) :
  snd (tick id h) = false ->
  phase (fst (tick id h)) = phase h
  /\ result (fst (tick id h)) = result h
  /\ playerChoice (fst (tick id h)) = playerChoice h
  /\ computerChoice (fst (tick id h)) = computerChoice h.
Proof.
  unfold tick. destruct (intervals h !! id) as [count |]; [| auto].
  destruct (0 <? count - 1)%Z; simpl; [auto | discriminate].
Qed.

Lemma reachable_resolvedInv (w : World Video) :
  (forall k, random k < 3) ->
  reachable getTopPrediction random w -> resolvedInv (hook w).
Proof.
  intros Hrange. induction 1 as [v | a w Hw IH Hoff].
  - left. simpl. repeat split. discriminate.
  - destruct a as [| | id | v]; simpl perform.
    + left. simpl. repeat split. discriminate.
    + left. simpl. repeat split. discriminate.
    + destruct (snd (tick id (hook w))) eqn:Hflag.
      * rewrite (fire_captured id w Hflag), handleCapture_spec.
        cbn [hook webcam calls draws waited withHook]. right.
        destruct (resolveRound_effect (random (draws w))
                    (match webcam w with
                     | None => idle
                     | Some video =>
                         mostCommon
                           (map (getTopPrediction video) (seq (calls w) 5))
                     end) (fst (tick id (hook w)))) as (Hres & Hp & _).
        destruct (resolveRound_playerChoice (random (draws w))
                    (match webcam w with
                     | None => idle
                     | Some video =>
                         mostCommon
                           (map (getTopPrediction video) (seq (calls w) 5))
                     end) (fst (tick id (hook w)))) as (Hpc & Hcc).
        cbv zeta in Hres, Hp.
        split; [exact Hp |]. split.
        -- rewrite Hcc.
           apply (proj1 (getComputerChoice_in_range _ (Hrange (draws w)))).
        -- rewrite Hres, Hpc, Hcc. reflexivity.
      * rewrite (fire_not_captured id w Hflag). cbn [hook withHook].
        destruct (tick_not_captured_display id (hook w) Hflag)
          as (Hp & Hr & Hpc & Hcc).
        unfold resolvedInv. rewrite Hp, Hr, Hpc, Hcc. exact IH.
    + exact IH.
Qed.

(** X17: with a random source in range, in every state the component can
    reach a resolved round is on display exactly in the result phase:
    there the computer shows one of rock, paper and scissors and the
    result is the outcome of the two moves shown; in every other phase no
    result is shown and both moves are idle. *)
Theorem reachable_result_shown (w : World Video) :
  (forall k, random k < 3) ->
  reachable getTopPrediction random w ->
  (phase (hook w) = GamePhase.result ->
   In (computerChoice (hook w)) CHOICES
   /\ computerChoice (hook w) <> idle
   /\ result (hook w) =
      getResult (playerChoice (hook w)) (computerChoice (hook w))
   /\ is_Some (result (hook w)))
  /\ (phase (hook w) <> GamePhase.result ->
      result (hook w) = None
      /\ playerChoice (hook w) = idle
      /\ computerChoice (hook w) = idle).
Proof.
  intros Hrange Hw.
  destruct (reachable_resolvedInv w Hrange Hw)
    as [(Hp & Hr & Hpc & Hcc) | (Hp & Hcc & Hr)].
  - split; [contradiction | auto].
  - split; [| contradiction]. intros _.
    split.
    { destruct (computerChoice (hook w)); simpl; auto; contradiction. }
    split; [exact Hcc |]. split; [exact Hr |].
    rewrite Hr. apply getResult_assigns.
Qed.

End ArenaMore.

Lemma reachable_countdown_shown_witness :
  let classifier := fun (_ : unit) (_ : nat) => rock in
  let random := fun _ : nat => 2 in
  let w := perform classifier random (Fire 1)
             (perform classifier random Play (initialWorld (Some tt))) in
  (1 <= countdown (hook w) <= 3)%Z.
Proof.
  cbv zeta.
  apply (proj1 (reachable_countdown_shown unit
                  (fun _ _ => rock) (fun _ => 2) _
                  (reachable_perform _ _ _ (Fire 1) _
                     (reachable_perform _ _ _ Play _
                        (reachable_initial _ _ _ (Some tt))
                        eq_refl)
                     eq_refl))).
  vm_compute. reflexivity.
Defined.


Lemma reachable_result_shown_witness :
  let classifier := fun (_ : unit) (_ : nat) => rock in
  let random := fun _ : nat => 2 in
  let w := perform classifier random (Fire 1)
             (perform classifier random (Fire 1)
                (perform classifier random (Fire 1)
                   (perform classifier random Play
                      (initialWorld (Some tt))))) in
  computerChoice (hook w) <> idle.
Proof.
  cbv zeta.
  refine (proj1 (proj2 (proj1 (reachable_result_shown unit
                                 (fun _ _ => rock) (fun _ => 2) _ _ _) _))).
  - intros k. simpl. lia.
  - apply reachable_perform; [| vm_compute; reflexivity].
    apply reachable_perform; [| vm_compute; reflexivity].
    apply reachable_perform; [| vm_compute; reflexivity].
    apply reachable_perform; [| vm_compute; reflexivity].
    apply reachable_initial.
  - vm_compute. reflexivity.
Defined.

(* ===================================================================== *)
(** ** Further properties of the vote *)
(* ===================================================================== *)

Lemma put_sum (counts : Counts) (k : GameChoice) :
  list_sum (map snd (put counts k (orZero (get counts k) + 1))) =
  S (list_sum (map snd counts)).
Proof.
  induction counts as [| [k' v'] rest IH]; simpl.
  - reflexivity.
  - case_bool_decide as Hk; simpl.
    + lia.
    + rewrite IH. lia.
Qed.

(** X18: the counting loop.  After it the counts object has one key for
    each label that was read and no other, each key holds the number of
    readings of its label, a label that was not read reads as undefined,
    and the counts add up to the number of readings. *)
Theorem counting_loop_counts (readings : list GameChoice) :
  let counts := fold_left countReading readings [] in
  List.NoDup (map fst counts)
  /\ (forall c, In c (map fst counts) <-> In c readings)
  /\ (forall c, In c readings -> get counts c = Some (votes c readings))
  /\ (forall c, ~ In c readings -> get counts c = None)
  /\ list_sum (map snd counts) = length readings.
Proof.
  cbv zeta.
  destruct (counts_after_loop readings) as (Hnd & Hget & _).
  assert (Hread : forall c, In c readings ->
            get (fold_left countReading readings []) c
            = Some (votes c readings)).
  { intros c Hin. rewrite Hget. apply votes_pos_In in Hin.
    destruct (votes c readings =? 0) eqn:E; [| reflexivity].
    apply Nat.eqb_eq in E. lia. }
  assert (Hunread : forall c, ~ In c readings ->
            get (fold_left countReading readings []) c = None).
  { intros c Hnin. rewrite Hget.
    destruct (votes c readings =? 0) eqn:E; [reflexivity |].
    apply Nat.eqb_neq in E. exfalso. apply Hnin, votes_pos_In. lia. }
  split; [exact Hnd |]. split; [| split; [exact Hread |
                                           split; [exact Hunread |]]].
  - intros c. split.
    + intros Hkey.
      destruct (in_dec GameChoice_eq_dec c readings) as [Hin | Hnin];
        [exact Hin |].
      exfalso. apply (proj1 (get_None_keys _ c) (Hunread c Hnin)). exact Hkey.
    + intros Hin. specialize (Hread c Hin).
      apply get_Some_In in Hread. apply (in_map fst) in Hread. exact Hread.
  - clear. induction readings as [| r rs IH] using rev_ind; [reflexivity |].
    rewrite fold_left_app, length_app. simpl. unfold countReading at 1.
    rewrite put_sum, IH. lia.
Qed.

(** X19: when one non-idle label has at least two votes and strictly more
    votes than every other non-idle label, it is the resolved move in
    whatever order the readings are taken. *)
Theorem clear_winner_any_order
  (readings readings' : list GameChoice) (c : GameChoice) :
  Permutation readings readings' ->
  c <> idle ->
  2 <= votes c readings ->
  (forall c', c' <> idle -> c' <> c -> votes c' readings < votes c readings) ->
  mostCommon readings = c /\ mostCommon readings' = c.
Proof.
  intros Hperm Hc Htwo Hclear.
  assert (Hwins : forall rs,
            (forall x, votes x rs = votes x readings) -> mostCommon rs = c).
  { intros rs Hsame. apply mostCommon_unique.
    - exact Hc.
    - rewrite Hsame. exact Htwo.
    - intros c' Hc'. rewrite !Hsame.
      destruct (decide (c' = c)) as [-> | Hne].
      + split; [lia | intros _; lia].
      + specialize (Hclear c' Hc' Hne). split; [lia | intros Htie; lia]. }
  split.
  - apply Hwins. reflexivity.
  - apply Hwins. intros x. unfold votes. symmetry.
    apply Permutation_count_occ. exact Hperm.
Qed.

Lemma clear_winner_any_order_witness :
  mostCommon [paper; rock; idle; rock; rock] = rock
  /\ mostCommon [rock; rock; rock; idle; paper] = rock.
Proof.
  apply (clear_winner_any_order
           [paper; rock; idle; rock; rock] [rock; rock; rock; idle; paper] rock).
  - apply (Permutation_count_occ GameChoice_eq_dec).
    intros []; reflexivity.
  - discriminate.
  - vm_compute. lia.
  - intros [] Hidle Hrock; try contradiction; vm_compute; lia.
Defined.

(* ===================================================================== *)
(** ** The adapter behind the capture *)
(* ===================================================================== *)

Lemma literal_idle (c : GameChoice) : literal c = "idle" -> c = idle.
Proof. destruct c; simpl; intros H; first [reflexivity | discriminate H]. Qed.

(** X20: the adapter and the capture together.  When the labels the
    component reads in its five samples are the answers of the adapter on
    the video element at those moments, and the adapter answers idle on
    each of them, as it does while no model is loaded, the round is
    resolved with the player's move idle and is lost. *)
Theorem idle_answers_forfeit
  (Video : Type)
  (modelInstance : option (Model (Video * nat)))
  (metadataLabels : list string)
  (classifier : Video -> nat -> GameChoice)
  (random : nat -> nat)
  (w : World Video) (video : Video) :
  webcam w = Some video ->
  (forall k, calls w <= k < calls w + 5 ->
     getTopPrediction (Video * nat) modelInstance metadataLabels (video, k) =
     Normal (literal (classifier video k))) ->
  (forall k, calls w <= k < calls w + 5 ->
     getTopPrediction (Video * nat) modelInstance metadataLabels (video, k) =
     Normal "idle") ->
  let w' := handleCapture classifier random w in
  playerChoice (hook w') = idle
  /\ result (hook w') = Some lose
  /\ phase (hook w') = GamePhase.result
  /\ score (hook w') =
     {| player := player (score (hook w));
        computer := computer (score (hook w)) + 1 |}.
Proof.
  intros Hvideo Hagree Hidle. cbv zeta.
  assert (Hbest : mostCommon (map (classifier video) (seq (calls w) 5)) = idle).
  { apply (proj1 (mostCommon_spec _)). intros c Hc.
    assert (Hnone : votes c (map (classifier video) (seq (calls w) 5)) = 0).
    { unfold votes. apply count_occ_not_In. intros Hin.
      apply in_map_iff in Hin as (k & Hk & Hrange).
      apply in_seq in Hrange.
      specialize (Hagree k Hrange). rewrite (Hidle k Hrange) in Hagree.
      injection Hagree as Hlit. symmetry in Hlit.
      apply literal_idle in Hlit. congruence. }
    lia. }
  rewrite (handleCapture_with_video Video classifier random w video Hvideo).
  cbv zeta. rewrite Hbest. unfold callResolveRound. cbn [hook].
  repeat split.
Qed.

Lemma idle_answers_forfeit_witness :
  let w := handlePlay (initialWorld (Some tt)) in
  let w' := handleCapture (fun (_ : unit) (_ : nat) => idle) (fun _ => 1) w in
  playerChoice (hook w') = idle /\ result (hook w') = Some lose.
Proof.
  cbv zeta.
  destruct (idle_answers_forfeit unit None ["idle"; "rock"]
              (fun _ _ => idle) (fun _ => 1)
              (handlePlay (initialWorld (Some tt))) tt eq_refl)
    as (Hp & Hr & _).
  - intros k _. reflexivity.
  - intros k _. reflexivity.
  - split; [exact Hp | exact Hr].
Defined.
